(** * fixspot: identifier extraction, metadata cache, fetcher and router

    A shallow embedding of [src/app.py] and the properties its
    specification states about it.

    Python strings are sequences of Unicode code points, modelled as
    [list N].  The process-wide dictionary [cache] is a [gmap] that every
    operation takes and returns.  The clock ([datetime.utcnow()]), the
    environment configuration and the upstream oEmbed endpoint are inputs of
    the functions that read them. *)

From Stdlib Require Import ZArith NArith Ascii String List Bool Lia.
From stdpp Require Import gmap list.
Import ListNotations.

Local Open Scope N_scope.
Local Set Warnings "-register-all".

(** ** Python strings *)

Abbreviation str := (list N).

(** [py "abc"] is the Python literal ['abc']. *)
Fixpoint py (s : string) : str :=
  match s with
  | EmptyString => []
  | String a r => N_of_ascii a :: py r
  end.

(** The double quote character, U+0022. *)
Definition dquote : N := 34.
(** The percent sign, U+0025. *)
Definition percent : N := 37.

Definition str_eqb (a b : str) : bool := bool_decide (a = b).

(** [s.startswith(p)], returning the remainder. *)
Fixpoint strip_prefix (p s : str) : option str :=
  match p, s with
  | [], _ => Some s
  | _ :: _, [] => None
  | a :: p', b :: s' => if a =? b then strip_prefix p' s' else None
  end.

(** [p in s] for two strings: [p] occurs in [s] as a substring. *)
Fixpoint str_in (p s : str) : bool :=
  match strip_prefix p s with
  | Some _ => true
  | None => match s with
            | [] => false
            | _ :: s' => str_in p s'
            end
  end.

(** Character classes of the patterns. *)
Definition in_range (lo hi c : N) : bool := (lo <=? c) && (c <=? hi).

(** [[a-zA-Z0-9]] *)
Definition alnum (c : N) : bool :=
  in_range 97 122 c || in_range 65 90 c || in_range 48 57 c.

(** The class of every character but the double quote. *)
Definition not_dquote (c : N) : bool := negb (c =? dquote).

Definition is_ascii (c : N) : bool := c <? 128.

(** ** The fragment of Python's [re] the program uses

    A backtracking matcher: alternation is ordered, quantifiers are greedy,
    [Grp] is capture group 1.  The continuation receives the unread input
    and the capture made so far. *)
Module Re.

Inductive regex : Type :=
| Lit (l : str)                      (* a literal string *)
| Rep (f : N -> bool) (n : nat)      (* [class]{n} *)
| Plus (f : N -> bool)               (* [class]+ *)
| Cat (a b : regex)
| Alt (a b : regex)                  (* a|b *)
| Grp (a : regex).                   (* ( a ) *)

(** Exactly [n] characters of the class. *)
Fixpoint rep (f : N -> bool) (n : nat) (s : str) : option str :=
  match n with
  | O => Some s
  | S n' => match s with
            | c :: s' => if f c then rep f n' s' else None
            | [] => None
            end
  end.

(** Zero or more characters of the class, longest first. *)
Fixpoint star {X} (f : N -> bool) (s : str) (k : str -> option X) : option X :=
  match s with
  | c :: s' =>
      if f c then
        match star f s' k with
        | Some x => Some x
        | None => k s
        end
      else k s
  | [] => k []
  end.

Definition plus {X} (f : N -> bool) (s : str) (k : str -> option X) : option X :=
  match s with
  | c :: s' => if f c then star f s' k else None
  | [] => None
  end.

Fixpoint run {X} (r : regex) (s : str) (g : option str)
    (k : str -> option str -> option X) : option X :=
  match r with
  | Lit l => match strip_prefix l s with
             | Some s' => k s' g
             | None => None
             end
  | Rep f n => match rep f n s with
               | Some s' => k s' g
               | None => None
               end
  | Plus f => plus f s (fun s' => k s' g)
  | Cat a b => run a s g (fun s' g' => run b s' g' k)
  | Alt a b => match run a s g k with
               | Some x => Some x
               | None => run b s g k
               end
  | Grp a => run a s g
               (fun s' _ => k s' (Some (take (length s - length s') s)))
  end.

(** A match object, reduced to what the program reads from it:
    [m.group(1)], [None] when the group took no part in the match. *)
Definition match_obj := option str.

(** [re.match]: the pattern matches at the start of [s]. *)
Definition match_here (r : regex) (s : str) : option match_obj :=
  run r s None (fun _ g => Some g).

(** [re.fullmatch]: the pattern matches all of [s]. *)
Definition fullmatch (r : regex) (s : str) : option match_obj :=
  run r s None (fun s' g => match s' with [] => Some g | _ => None end).

(** [re.search]: the match at the leftmost position that has one. *)
Fixpoint search (r : regex) (s : str) : option match_obj :=
  match match_here r s with
  | Some m => Some m
  | None => match s with
            | [] => None
            | _ :: s' => search r s'
            end
  end.

End Re.

(** ** [urllib.parse.unquote] *)

Definition hex_value (c : N) : option N :=
  if in_range 48 57 c then Some (c - 48)
  else if in_range 65 70 c then Some (c - 55)
  else if in_range 97 102 c then Some (c - 87)
  else None.

(** [unquote_to_bytes] on an ASCII string: every [%XX] with two hexadecimal
    digits becomes the byte [0xXX]; a [%] not followed by two hexadecimal
    digits stays, with what follows it. *)
Fixpoint unquote_to_bytes (s : str) : list N :=
  match s with
  | [] => []
  | c :: r =>
      if c =? percent then
        match r with
        | h1 :: h2 :: r' =>
            match hex_value h1, hex_value h2 with
            | Some a, Some b => (16 * a + b) :: unquote_to_bytes r'
            | _, _ => c :: unquote_to_bytes r
            end
        | _ => c :: unquote_to_bytes r
        end
      else c :: unquote_to_bytes r
  end.

(** U+FFFD, what [errors='replace'] puts for bytes that are not UTF-8. *)
Definition replacement : N := 65533.

Definition is_cont (b : N) : bool := in_range 128 191 b.

(** [bytes.decode('utf-8', 'replace')].  An invalid start byte is one
    error; a lead byte whose next byte cannot follow it is one error of one
    byte; a sequence cut by a later wrong byte is one error up to that byte;
    a sequence cut by the end of the data is one error up to the end.  Every
    error becomes one U+FFFD and decoding resumes after it. *)
Fixpoint utf8_decode (bs : list N) : str :=
  match bs with
  | [] => []
  | b :: r =>
      if b <? 128 then b :: utf8_decode r
      else if b <? 194 then replacement :: utf8_decode r
      else if b <? 224 then
        match r with
        | [] => [replacement]
        | b2 :: r2 =>
            if is_cont b2
            then (64 * (b - 192) + (b2 - 128)) :: utf8_decode r2
            else replacement :: utf8_decode r
        end
      else if b <? 240 then
        match r with
        | [] => [replacement]
        | b2 :: r2 =>
            if negb (is_cont b2)
               || ((b =? 224) && (b2 <? 160))
               || ((b =? 237) && (160 <=? b2))
            then replacement :: utf8_decode r
            else
              match r2 with
              | [] => [replacement]
              | b3 :: r3 =>
                  if is_cont b3
                  then (4096 * (b - 224) + 64 * (b2 - 128) + (b3 - 128))
                         :: utf8_decode r3
                  else replacement :: utf8_decode r2
              end
        end
      else if b <? 245 then
        match r with
        | [] => [replacement]
        | b2 :: r2 =>
            if negb (is_cont b2)
               || ((b =? 240) && (b2 <? 144))
               || ((b =? 244) && (144 <=? b2))
            then replacement :: utf8_decode r
            else
              match r2 with
              | [] => [replacement]
              | b3 :: r3 =>
                  if is_cont b3 then
                    match r3 with
                    | [] => [replacement]
                    | b4 :: r4 =>
                        if is_cont b4
                        then (262144 * (b - 240) + 4096 * (b2 - 128)
                              + 64 * (b3 - 128) + (b4 - 128))
                               :: utf8_decode r4
                        else replacement :: utf8_decode r3
                    end
                  else replacement :: utf8_decode r2
              end
        end
      else replacement :: utf8_decode r
  end.

(** One maximal ASCII run of the input, unquoted and decoded. *)
Definition unquote_part (run : str) : str :=
  utf8_decode (unquote_to_bytes run).

(** The parts of [unquote]: maximal runs of ASCII characters are unquoted
    and decoded, the characters between them are kept.  [run] is the ASCII
    run read so far. *)
Fixpoint unquote_parts (s : str) (run : str) : str :=
  match s with
  | [] => unquote_part run
  | c :: s' =>
      if is_ascii c then unquote_parts s' (run ++ [c])
      else unquote_part run ++ c :: unquote_parts s' []
  end.

(** [unquote(string)] with the default [encoding='utf-8'] and
    [errors='replace'].  It has no failure case for a [str]. *)
Definition unquote (s : str) : str :=
  if existsb (N.eqb percent) s then unquote_parts s [] else s.

(** ** Identifier extractor ([src/app.py], lines 26-44) *)

(** [r'[a-zA-Z0-9]{22}'] *)
Definition re_track_id : Re.regex := Re.Rep alnum 22.

(** [r'(?:spotify\.com\/track\/|spotify:track:)([a-zA-Z0-9]{22})'] *)
Definition re_track_url : Re.regex :=
  Re.Cat (Re.Alt (Re.Lit (py "spotify.com/track/")) (Re.Lit (py "spotify:track:")))
         (Re.Grp (Re.Rep alnum 22)).

(** Lines 38-41: the search in the decoded string and what is returned
    from it, [match.group(1)] or [None]. *)
Definition search_track_id (decoded_url : str) : option str :=
  match Re.search re_track_url decoded_url with
  | Some m => m
  | None => None
  end.

(** Python's [None] is [None]; the [try] block has no operation that can
    raise on a [str], and [except Exception] would return [None]. *)
Definition extract_spotify_track_id (url_string : str) : option str :=
  match url_string with
  | [] => None
  | _ =>
      match Re.fullmatch re_track_id url_string with
      | Some _ => Some url_string
      | None =>
          let decoded_url := unquote url_string in
          search_track_id decoded_url
      end
  end.

(** ** Time

    A [datetime] is a number of microseconds since 0001-01-01T00:00:00, the
    resolution of Python's type; [datetime.max] is the last microsecond of
    the year 9999.  A [timedelta] is a number of microseconds. *)

Local Open Scope Z_scope.

Definition datetime_max : Z := 315537897599999999.

(** [t + d] on a [datetime] and a [timedelta]; [None] is [OverflowError],
    raised when the sum is not a [datetime]. *)
Definition datetime_add (t d : Z) : option Z :=
  if (0 <=? t + d) && (t + d <=? datetime_max) then Some (t + d) else None.

(** ** Configuration (lines 13-18), read once from the environment *)

Record config : Type := Config {
  CACHE_DURATION_SECONDS : Z;
  SERVICE_NAME : str;
  YOUR_TWITTER_HANDLE : str
}.

(** [timedelta(seconds=CACHE_DURATION_SECONDS)] *)
Definition CACHE_DURATION (cfg : config) : Z :=
  1000000 * CACHE_DURATION_SECONDS cfg.

Definition USER_AGENT_BOTS : list str :=
  [py "Discordbot"; py "TelegramBot"; py "facebookexternalhit";
   py "Twitterbot"; py "Slackbot"].

Definition SPOTIFY_OEMBED_URL : str := py "https://open.spotify.com/oembed".

(** ** JSON values, as [response.json()] returns them *)

Inductive json : Type :=
| JNull
| JBool (b : bool)
| JNumber (literal : str)
| JString (s : str)
| JArray (l : list json)
| JObject (items : list (str * json)).   (* a dict, by its items *)

(** [d[k]] on the items of a dict; [None] is [KeyError]. *)
Fixpoint dict_lookup (k : str) (items : list (str * json)) : option json :=
  match items with
  | [] => None
  | (k', v) :: rest => if str_eqb k k' then Some v else dict_lookup k rest
  end.

Definition is_json_string (k : str) (v : json) : bool :=
  match v with
  | JString s => str_eqb k s
  | _ => false
  end.

(** [k in data] for a string [k]: a key of a dict, an element of a list, a
    substring of a string; [None] is the [TypeError] of the other values. *)
Definition py_in (k : str) (data : json) : option bool :=
  match data with
  | JObject items => Some (bool_decide (is_Some (dict_lookup k items)))
  | JArray l => Some (existsb (is_json_string k) l)
  | JString s => Some (str_in k s)
  | _ => None
  end.

(** [all(k in data for k in ks)], stopping at the first [False]. *)
Fixpoint all_in (ks : list str) (data : json) : option bool :=
  match ks with
  | [] => Some true
  | k :: ks' =>
      match py_in k data with
      | None => None
      | Some false => Some false
      | Some true => all_in ks' data
      end
  end.

(** [data[k]] for a string [k]; [None] is [KeyError], or the [TypeError] of a
    value that is not a dict. *)
Definition subscript (data : json) (k : str) : option json :=
  match data with
  | JObject items => dict_lookup k items
  | _ => None
  end.

(** [data.get(k, default)] on a dict. *)
Definition dict_get (items : list (str * json)) (k : str) (default : json) : json :=
  match dict_lookup k items with
  | Some v => v
  | None => default
  end.

(** ** The upstream call *)

Record http_request : Type := HttpGet {
  request_url : str;
  request_params : list (str * str);
  request_headers : list (str * str);
  request_timeout : Z
}.

(** What [requests.get] followed by [response.json()] can give. *)
Inductive http_outcome : Type :=
| Timeout                         (* requests.exceptions.Timeout *)
| RequestError                    (* another RequestException *)
| HttpResponse (status_code : Z) (body : option json).
                                  (* body: [None] when [json()] raises *)

(** [response.raise_for_status()] raises for the 4xx and 5xx codes. *)
Definition raises_for_status (status_code : Z) : bool :=
  (400 <=? status_code) && (status_code <? 600).

(** ** Metadata fetcher and cache ([src/app.py], lines 46-113) *)

(** [result_data] *)
Record track_data : Type := TrackData {
  title : json;
  thumbnail_url : json;
  original_url : str;
  embed_url : str;
  width : str;
  height : str;
  provider_name : json;
  service_name : str;
  your_twitter_handle : str;
  track_id : str
}.

(** The dictionary [cache]: key to (data, expiry instant). *)
Abbreviation cache_t := (gmap str (track_data * Z)).

Definition required_keys : list str :=
  [py "title"; py "thumbnail_url"; py "html"].

(** The shape of the three patterns of lines 76-78: a name ending in [=],
    a double quote, one or more characters of a class as group 1, and a
    double quote. *)
Definition attr_pattern (name : str) (f : N -> bool) : Re.regex :=
  Re.Cat (Re.Lit (name ++ [dquote]))
         (Re.Cat (Re.Grp (Re.Plus f)) (Re.Lit [dquote])).

(** [r'src=QUOTE([^QUOTE]+)QUOTE'], QUOTE standing for the double quote. *)
Definition re_src : Re.regex := attr_pattern (py "src=") not_dquote.

(** [group(1) if m else default] *)
Definition group1_or (m : option Re.match_obj) (default : str) : str :=
  match m with
  | Some (Some g) => g
  | _ => default
  end.

(** Lines 51-60: the lookup that opens [get_spotify_data].  A live entry is
    returned; an expired one is deleted. *)
Definition cache_get (now : Z) (cache_key : str) (cache : cache_t)
  : option track_data * cache_t :=
  match cache !! cache_key with
  | Some (cached_data, expiry_time) =>
      if now <? expiry_time then (Some cached_data, cache)
      else (None, delete cache_key cache)
  | None => (None, cache)
  end.

(** Line 101: [cache[cache_key] = (result_data, now + ttl)]; [None] when the
    sum raises. *)
Definition cache_put (now ttl : Z) (cache_key : str) (result_data : track_data)
    (cache : cache_t) : option cache_t :=
  match datetime_add now ttl with
  | Some expiry_time => Some (<[cache_key := (result_data, expiry_time)]> cache)
  | None => None
  end.

(** Lookups of one key at the instants [times], one after the other: what
    each reports, and the cache after the last. *)
Fixpoint cache_gets (times : list Z) (cache_key : str) (cache : cache_t)
  : list (option track_data) * cache_t :=
  match times with
  | [] => ([], cache)
  | now :: rest =>
      let '(r, cache1) := cache_get now cache_key cache in
      let '(rs, cache2) := cache_gets rest cache_key cache1 in
      (r :: rs, cache2)
  end.

Section App.

(** The decimal digits beyond [0-9] that [\d] matches in a [str] pattern:
    the table of Unicode category Nd of the running interpreter, read for
    characters outside ASCII only. *)
Variable unicode_decimal : N -> bool.

Variable cfg : config.

(** [\d] *)
Definition digit (c : N) : bool :=
  in_range 48 57 c || (negb (is_ascii c) && unicode_decimal c).

(** [r'width=QUOTE(\d+)QUOTE'] *)
Definition re_width : Re.regex := attr_pattern (py "width=") digit.

(** [r'height=QUOTE(\d+)QUOTE'] *)
Definition re_height : Re.regex := attr_pattern (py "height=") digit.

Definition spotify_url (track_id : str) : str :=
  py "https://open.spotify.com/track/" ++ track_id.

Definition oembed_request (track_id : str) : http_request :=
  {| request_url := SPOTIFY_OEMBED_URL;
     request_params := [(py "url", spotify_url track_id); (py "format", py "json")];
     request_headers :=
       [(py "User-Agent", SERVICE_NAME cfg ++ py "/1.0 (Vercel Function)")];
     request_timeout := 8 |}.

(** Lines 69-103: from the parsed body to [result_data]; [None] stands for
    both [return None] and an exception, which [except Exception] turns
    into [return None]. *)
Definition build_result (track_id : str) (data : json) : option track_data :=
  match all_in required_keys data with
  | Some true =>
      match data, subscript data (py "html") with
      | JObject items, Some (JString html) =>
          let embed_match := Re.search re_src html in
          let width_match := Re.search re_width html in
          let height_match := Re.search re_height html in
          match embed_match with
          | Some (Some embed_url) =>
              Some {| title := dict_get items (py "title") (JString (py "Spotify Track"));
                      thumbnail_url := dict_get items (py "thumbnail_url") JNull;
                      original_url := spotify_url track_id;
                      embed_url := embed_url;
                      width := group1_or width_match (py "300");
                      height := group1_or height_match (py "380");
                      provider_name := dict_get items (py "provider_name") (JString (py "Spotify"));
                      service_name := SERVICE_NAME cfg;
                      your_twitter_handle := YOUR_TWITTER_HANDLE cfg;
                      track_id := track_id |}
          | _ => None
          end
      | _, _ => None
      end
  | _ => None
  end.

(** [get_spotify_data(track_id)]: the value returned, the cache afterwards,
    and the upstream requests issued. *)
Definition get_spotify_data (upstream : http_request -> http_outcome)
    (now : Z) (track_id : str) (cache : cache_t)
  : option track_data * cache_t * list http_request :=
  let cache_key := py "spotify:" ++ track_id in
  match cache_get now cache_key cache with
  | (Some cached_data, cache) => (Some cached_data, cache, [])
  | (None, cache) =>
      let request := oembed_request track_id in
      match upstream request with
      | Timeout => (None, cache, [request])
      | RequestError => (None, cache, [request])
      | HttpResponse status_code body =>
          if raises_for_status status_code then (None, cache, [request])
          else
            match body with
            | None => (None, cache, [request])
            | Some data =>
                match build_result track_id data with
                | None => (None, cache, [request])
                | Some result_data =>
                    match cache_put now (CACHE_DURATION cfg) cache_key result_data cache with
                    | Some cache' => (Some result_data, cache', [request])
                    | None => (None, cache, [request])
                    end
                end
            end
      end
  end.

(** ** Request router ([src/app.py], lines 137-175) *)

(** The characters [str.strip()] removes. *)
Definition is_space (c : N) : bool :=
  (in_range 9 13 c || in_range 28 32 c || (c =? 133) || (c =? 160)
   || (c =? 5760) || in_range 8192 8202 c || (c =? 8232) || (c =? 8233)
   || (c =? 8239) || (c =? 8287) || (c =? 12288))%N.

Fixpoint lstrip (s : str) : str :=
  match s with
  | c :: s' => if is_space c then lstrip s' else s
  | [] => []
  end.

Definition strip (s : str) : str := rev (lstrip (rev (lstrip s))).

(** A request, by what the handler reads: the path of the route, the query
    parameters in order, and the User-Agent header when there is one. *)
Record request : Type := Request {
  path : str;
  args : list (str * str);
  user_agent_header : option str
}.

(** [request.args.get(k, default)]: the first value of [k]. *)
Fixpoint args_get (k : str) (default : str) (a : list (str * str)) : str :=
  match a with
  | [] => default
  | (k', v) :: rest => if str_eqb k k' then v else args_get k default rest
  end.

Inductive response : Type :=
| LandingPage (service_name : str)   (* LANDING_PAGE_TEMPLATE, 200 *)
| ErrorPage (message : str)          (* ERROR_TEMPLATE, 400 *)
| EmbedPage (data : track_data)      (* HTML_TEMPLATE, text/html, 200 *)
| Redirect (location : str) (code : Z)
| NoContent.                         (* favicon: 204 *)

Definition response_status (r : response) : Z :=
  match r with
  | LandingPage _ => 200
  | ErrorPage _ => 400
  | EmbedPage _ => 200
  | Redirect _ code => code
  | NoContent => 204
  end.

Definition input_value_of (req : request) : str :=
  strip (args_get (py "url") (path req) (args req)).

Definition is_bot (user_agent : str) : bool :=
  existsb (fun bot_ua => str_in bot_ua user_agent) USER_AGENT_BOTS.

Definition error_message (input_value : str) : str :=
  py "Could not find a valid Spotify Track ID in '" ++ input_value
  ++ py "'. Please provide a full Spotify track URL or just the 22-character ID.".

Definition handle_request (upstream : http_request -> http_outcome)
    (now : Z) (req : request) (cache : cache_t)
  : response * cache_t * list http_request :=
  let user_agent := default [] (user_agent_header req) in
  let input_value := input_value_of req in
  match input_value with
  | [] => (LandingPage (SERVICE_NAME cfg), cache, [])
  | _ =>
      match extract_spotify_track_id input_value with
      | None | Some [] => (ErrorPage (error_message input_value), cache, [])
      | Some track_id =>
          if is_bot user_agent then
            match get_spotify_data upstream now track_id cache with
            | (Some spotify_data, cache', sent) => (EmbedPage spotify_data, cache', sent)
            | (None, cache', sent) => (Redirect (spotify_url track_id) 307, cache', sent)
            end
          else (Redirect (spotify_url track_id) 307, cache, [])
      end
  end.

Definition favicon : response := NoContent.

End App.

(** The configuration when the environment sets nothing. *)
Definition default_config : config :=
  {| CACHE_DURATION_SECONDS := 24 * 60 * 60;
     SERVICE_NAME := py "Spotify Embed Fix";
     YOUR_TWITTER_HANDLE := [] |}.

(** A record for the examples. *)
Definition sample_data : track_data :=
  {| title := JString (py "Song");
     thumbnail_url := JString (py "https://i.scdn.co/image/ab67");
     original_url := py "https://open.spotify.com/track/4cOdK2wGLETKBW3PvgPWqT";
     embed_url := py "https://embed.spotify/abc";
     width := py "80";
     height := py "380";
     provider_name := JString (py "Spotify");
     service_name := py "Spotify Embed Fix";
     your_twitter_handle := [];
     track_id := py "4cOdK2wGLETKBW3PvgPWqT" |}.


(** ** Vocabulary of the properties *)

(** One of the two prefixes of the pattern of line 38. *)
Definition track_prefix (p : str) : Prop :=
  p = py "spotify.com/track/" \/ p = py "spotify:track:".

(** A string of 22 alphanumeric characters. *)
Definition is_track_id (id : str) : Prop :=
  length id = 22%nat /\ forallb alnum id = true.

(** At offset [n], [t] reads a prefix and then the identifier [id]. *)
Definition track_at (t : str) (n : nat) (id : str) : Prop :=
  exists p post, track_prefix p /\ drop n t = p ++ id ++ post /\ is_track_id id.

(** [id] is the identifier of the leftmost such place of [t]. *)
Definition first_track (t : str) (id : str) : Prop :=
  exists n, track_at t n id /\ forall m id', (m < n)%nat -> ~ track_at t m id'.

(** At offset [n], [t] reads [name], a double quote, the non-empty value [v]
    of characters of the class [f], and a double quote. *)
Definition attr_at (name : str) (f : N -> bool) (t : str) (n : nat) (v : str) : Prop :=
  exists post,
    drop n t = name ++ dquote :: v ++ dquote :: post
    /\ v <> [] /\ forallb f v = true.

Definition first_attr (name : str) (f : N -> bool) (t : str) (v : str) : Prop :=
  exists n, attr_at name f t n v
            /\ forall m v', (m < n)%nat -> ~ attr_at name f t m v'.

(** [e] is a percent-encoding of [w]: every character of [w] stands in [e]
    as itself or as [%XX], the two hexadecimal digits of its code. *)
Inductive pct_encodes : str -> str -> Prop :=
| enc_nil : pct_encodes [] []
| enc_lit (c : N) (e w : str) :
    c <> percent -> pct_encodes e w -> pct_encodes (c :: e) (c :: w)
| enc_hex (h1 h2 a b : N) (e w : str) :
    hex_value h1 = Some a -> hex_value h2 = Some b ->
    pct_encodes e w ->
    pct_encodes (percent :: h1 :: h2 :: e) ((16 * a + b)%N :: w).

(** [s] has a [%] that two hexadecimal digits do not follow. *)
Definition malformed_escape (s : str) : Prop :=
  exists pre post,
    s = pre ++ percent :: post
    /\ match post with
       | h1 :: h2 :: _ => hex_value h1 = None \/ hex_value h2 = None
       | _ => True
       end.

(** [s] has a [%] that two hexadecimal digits follow. *)
Definition wellformed_escape (s : str) : Prop :=
  exists pre h1 h2 post,
    s = pre ++ percent :: h1 :: h2 :: post
    /\ hex_value h1 <> None /\ hex_value h2 <> None.

(** The same, as a test. *)
Fixpoint has_escape (s : str) : bool :=
  match s with
  | [] => false
  | c :: r =>
      ((c =? percent)%N
       && match r with
          | h1 :: h2 :: _ =>
              match hex_value h1, hex_value h2 with
              | Some _, Some _ => true
              | _, _ => false
              end
          | _ => false
          end)
      || has_escape r
  end.

(** The value of a string of the digits [0-9]. *)
Fixpoint numeral_value (acc : N) (s : str) : option N :=
  match s with
  | [] => Some acc
  | c :: s' => if in_range 48 57 c then numeral_value (10 * acc + (c - 48))%N s' else None
  end.

(** [s] is the decimal numeral of a positive integer. *)
Definition positive_numeral (s : str) : bool :=
  match s with
  | [] => false
  | _ => match numeral_value 0 s with
         | Some n => (0 <? n)%N
         | None => false
         end
  end.

(** An input with two tracks: a link, and a URI in its query string. *)
Definition two_tracks : str :=
  py "https://open.spotify.com/track/4cOdK2wGLETKBW3PvgPWqT?context=spotify:track:7ouMYWpwJ422jRcDASZB7P".

(** An input with a malformed escape, an encoded link and a plain link. *)
Definition mixed_escapes : str :=
  py "%zz spotify.com%2Ftrack%2F4cOdK2wGLETKBW3PvgPWqT spotify.com/track/7ouMYWpwJ422jRcDASZB7P".

(** What makes the body of an upstream answer unusable. *)
Inductive body_failure : json -> Prop :=
| fail_not_object (data : json) :
    (forall items, data <> JObject items) -> body_failure data
| fail_missing_key (items : list (str * json)) (k : str) :
    In k required_keys -> dict_lookup k items = None ->
    body_failure (JObject items)
| fail_html_type (items : list (str * json)) (v : json) :
    dict_lookup (py "html") items = Some v -> (forall h, v <> JString h) ->
    body_failure (JObject items)
| fail_no_src (items : list (str * json)) (html : str) :
    dict_lookup (py "html") items = Some (JString html) ->
    (forall n v, ~ attr_at (py "src=") not_dquote html n v) ->
    body_failure (JObject items).

(** What makes a fetch fail, on the side of the upstream endpoint. *)
Inductive upstream_failure : http_outcome -> Prop :=
| fail_timeout : upstream_failure Timeout
| fail_request : upstream_failure RequestError
| fail_status (status_code : Z) (body : option json) :
    400 <= status_code < 600 ->
    upstream_failure (HttpResponse status_code body)
| fail_json (status_code : Z) :
    upstream_failure (HttpResponse status_code None)
| fail_body (status_code : Z) (data : json) :
    body_failure data ->
    upstream_failure (HttpResponse status_code (Some data)).

(** [name="value"] *)
Definition quoted (name value : str) : str := name ++ dquote :: value ++ [dquote].

(** An embed fragment with the given width and height. *)
Definition iframe (w h : str) : str :=
  py "<iframe " ++ quoted (py "src=") (py "https://embed.spotify/abc")
  ++ py " " ++ quoted (py "width=") w
  ++ py " " ++ quoted (py "height=") h ++ py "></iframe>".

(** An oEmbed body with the three required keys. *)
Definition oembed_body (html : json) : json :=
  JObject [(py "title", JString (py "Song"));
           (py "thumbnail_url", JString (py "https://i.scdn.co/image/ab67"));
           (py "html", html)].

(** 2026-01-01T00:00:00. *)
Definition new_year_2026 : Z := 63902822400000000.

(** The table of an interpreter with no decimal digit beyond [0-9]; on
    ASCII input [digit] does not read the table. *)
Definition no_unicode_decimal : N -> bool := fun _ => false.



(** ** The process: a cache that starts empty and visits served in turn *)

(** Line 23: [cache = {}]. *)
Definition initial_cache : cache_t := ∅.

(** One visit: the request, the instant [datetime.utcnow()] gives while it
    is handled, and how the upstream endpoint answers during it. *)
Record visit : Type := Visit {
  visit_upstream : http_request -> http_outcome;
  visit_time : Z;
  visit_request : request
}.

(** The visits handled one after the other on the shared cache: the
    responses, and the cache after the last. *)
Fixpoint serve (unicode_decimal : N -> bool) (cfg : config)
    (visits : list visit) (cache : cache_t) : list response * cache_t :=
  match visits with
  | [] => ([], cache)
  | v :: rest =>
      let '(resp, cache1, _) :=
        handle_request unicode_decimal cfg (visit_upstream v) (visit_time v)
          (visit_request v) cache in
      let '(resps, cache2) := serve unicode_decimal cfg rest cache1 in
      (resp :: resps, cache2)
  end.

(** What a record for the identifier [id] holds when [get_spotify_data]
    built it under the configuration [cfg]. *)
Definition record_for (unicode_decimal : N -> bool) (cfg : config) (id : str)
    (d : track_data) : Prop :=
  track_id d = id
  /\ original_url d = py "https://open.spotify.com/track/" ++ id
  /\ embed_url d <> [] /\ forallb not_dquote (embed_url d) = true
  /\ width d <> [] /\ forallb (digit unicode_decimal) (width d) = true
  /\ height d <> [] /\ forallb (digit unicode_decimal) (height d) = true
  /\ service_name d = SERVICE_NAME cfg
  /\ your_twitter_handle d = YOUR_TWITTER_HANDLE cfg.

(** Every entry of the cache is a record for the identifier of its key. *)
Definition cache_ok (unicode_decimal : N -> bool) (cfg : config)
    (cache : cache_t) : Prop :=
  forall id d e,
    cache !! (py "spotify:" ++ id) = Some (d, e) ->
    record_for unicode_decimal cfg id d.

(** What a response of the service is, for some identifier: a page, or an
    embed page or a redirect for a string of 22 alphanumeric characters. *)
Definition response_ok (unicode_decimal : N -> bool) (cfg : config)
    (r : response) : Prop :=
  match r with
  | LandingPage name => name = SERVICE_NAME cfg
  | ErrorPage _ => True
  | EmbedPage d =>
      exists id, is_track_id id /\ record_for unicode_decimal cfg id d
  | Redirect location code =>
      code = 307
      /\ exists id, is_track_id id
                    /\ location = py "https://open.spotify.com/track/" ++ id
  | NoContent => False
  end.

(** * Properties *)

(** ** Strings and patterns *)

Lemma strip_prefix_app (p s : str) : strip_prefix p (p ++ s) = Some s.
Proof.
  induction p as [|a p IH]; simpl; [reflexivity|].
  rewrite N.eqb_refl. exact IH.
Qed.

Lemma strip_prefix_inv (p s r : str) : strip_prefix p s = Some r -> s = p ++ r.
Proof.
  revert s. induction p as [|a p IH]; intros s H; simpl in *.
  - congruence.
  - destruct s as [|b s]; [discriminate|].
    destruct (N.eqb_spec a b) as [->|]; [|discriminate].
    f_equal. auto.
Qed.

Lemma rep_app (f : N -> bool) (w r : str) :
  forallb f w = true -> Re.rep f (length w) (w ++ r) = Some r.
Proof.
  induction w as [|c w IH]; simpl; intros H; [reflexivity|].
  apply andb_prop in H as [Hc Hw]. rewrite Hc. auto.
Qed.

Lemma rep_inv (f : N -> bool) (n : nat) (s r : str) :
  Re.rep f n s = Some r ->
  exists w, s = w ++ r /\ length w = n /\ forallb f w = true.
Proof.
  revert s. induction n as [|n IH]; intros s H; simpl in H.
  - exists []. inversion H. auto.
  - destruct s as [|c s]; [discriminate|].
    destruct (f c) eqn:Hc; [|discriminate].
    destruct (IH _ H) as (w & -> & Hl & Hw).
    exists (c :: w). simpl. rewrite Hc, Hl. auto.
Qed.

(** [re.fullmatch(r'[a-zA-Z0-9]{22}', s)] succeeds exactly on the strings of
    22 alphanumeric characters. *)
Lemma fullmatch_track_id (s : str) :
  Re.fullmatch re_track_id s <> None <->
  length s = 22%nat /\ forallb alnum s = true.
Proof.
  unfold Re.fullmatch, re_track_id. cbn [Re.run]. split.
  - destruct (Re.rep alnum 22 s) as [r|] eqn:E; [|done].
    destruct r; [|done]. intros _.
    apply rep_inv in E as (w & -> & Hl & Hw).
    rewrite app_nil_r. auto.
  - intros [Hl Hw].
    assert (E : Re.rep alnum 22 s = Some []).
    { rewrite <- Hl. rewrite <- (app_nil_r s) at 2. apply rep_app; assumption. }
    rewrite E. done.
Qed.

Lemma extract_of_track_id (s : str) :
  is_track_id s -> extract_spotify_track_id s = Some s.
Proof.
  intros H. unfold extract_spotify_track_id.
  destruct (Re.fullmatch re_track_id s) eqn:E.
  - destruct s; [destruct H as [H _]; discriminate H | reflexivity].
  - apply fullmatch_track_id in H. congruence.
Qed.

(** ** C8: a bare identifier *)

(** C8.  For every string of exactly 22 alphanumeric characters,
    [extract_spotify_track_id] returns that string unchanged. *)
Theorem extract_bare_id (s : str) :
  length s = 22%nat -> forallb alnum s = true ->
  extract_spotify_track_id s = Some s.
Proof.
  intros Hl Hw. unfold extract_spotify_track_id.
  destruct s as [|c s]; [discriminate|].
  destruct (Re.fullmatch re_track_id (c :: s)) eqn:E; [reflexivity|].
  exfalso. revert E. apply fullmatch_track_id. auto.
Qed.

Lemma extract_bare_id_witness :
  extract_spotify_track_id (py "4cOdK2wGLETKBW3PvgPWqT") = Some (py "4cOdK2wGLETKBW3PvgPWqT").
Proof.
  apply (extract_bare_id (py "4cOdK2wGLETKBW3PvgPWqT")); reflexivity.
Defined.

(** ** The cache *)

Lemma cache_get_absent (now : Z) (key : str) (cache : cache_t) :
  cache !! key = None -> cache_get now key cache = (None, cache).
Proof. intros H. unfold cache_get. rewrite H. reflexivity. Qed.

Lemma cache_get_live (now : Z) (key : str) (cache : cache_t) (d : track_data) (e : Z) :
  cache !! key = Some (d, e) -> now < e -> cache_get now key cache = (Some d, cache).
Proof.
  intros H Hlt. unfold cache_get. rewrite H.
  destruct (Z.ltb_spec now e); [reflexivity | lia].
Qed.

Lemma cache_get_expired (now : Z) (key : str) (cache : cache_t) (d : track_data) (e : Z) :
  cache !! key = Some (d, e) -> e <= now ->
  cache_get now key cache = (None, delete key cache).
Proof.
  intros H Hle. unfold cache_get. rewrite H.
  destruct (Z.ltb_spec now e); [lia | reflexivity].
Qed.

Lemma cache_put_lookup (t ttl : Z) (key : str) (m : track_data) (cache cache1 : cache_t) :
  cache_put t ttl key m cache = Some cache1 ->
  cache1 !! key = Some (m, t + ttl).
Proof.
  unfold cache_put, datetime_add.
  destruct (_ && _); [|discriminate].
  intros [= <-]. apply lookup_insert_eq.
Qed.

(** C2.  After [put(id, m, ttl)] at [put_time], a [get] at any [now] before
    [put_time + ttl] returns [m] and leaves the cache as it is; a [get] at
    any [now] from [put_time + ttl] on reports a miss and removes the entry. *)
Theorem cache_round_trip (cache cache1 : cache_t) (key : str) (m : track_data)
    (ttl put_time now : Z) :
  cache_put put_time ttl key m cache = Some cache1 ->
  (now < put_time + ttl -> cache_get now key cache1 = (Some m, cache1)) /\
  (put_time + ttl <= now ->
     cache_get now key cache1 = (None, delete key cache1)
     /\ delete key cache1 !! key = None).
Proof.
  intros Hput. apply cache_put_lookup in Hput. split; intros Hnow.
  - eapply cache_get_live; eassumption.
  - split; [eapply cache_get_expired; eassumption | apply lookup_delete_eq].
Qed.

Lemma cache_round_trip_witness :
  cache_get 30 (py "spotify:4cOdK2wGLETKBW3PvgPWqT")
    (<[py "spotify:4cOdK2wGLETKBW3PvgPWqT" := (sample_data, 10 + 60)]> ∅)
  = (Some sample_data,
     <[py "spotify:4cOdK2wGLETKBW3PvgPWqT" := (sample_data, 10 + 60)]> ∅)
  /\ cache_get 70 (py "spotify:4cOdK2wGLETKBW3PvgPWqT")
       (<[py "spotify:4cOdK2wGLETKBW3PvgPWqT" := (sample_data, 10 + 60)]> ∅)
     = (None,
        delete (py "spotify:4cOdK2wGLETKBW3PvgPWqT")
          (<[py "spotify:4cOdK2wGLETKBW3PvgPWqT" := (sample_data, 10 + 60)]> ∅)).
Proof.
  split.
  - apply (cache_round_trip ∅ _ (py "spotify:4cOdK2wGLETKBW3PvgPWqT") sample_data 60 10 30).
    + reflexivity.
    + lia.
  - apply (cache_round_trip ∅ _ (py "spotify:4cOdK2wGLETKBW3PvgPWqT") sample_data 60 10 70).
    + reflexivity.
    + lia.
Defined.

Lemma cache_gets_absent (times : list Z) (key : str) (cache : cache_t) :
  cache !! key = None ->
  cache_gets times key cache = (map (fun _ => None) times, cache).
Proof.
  intros H. induction times as [|t times IH]; simpl; [reflexivity|].
  rewrite (cache_get_absent _ _ _ H), IH. reflexivity.
Qed.

(** C9.  A [get] on an expired entry reports a miss and removes the entry;
    every [get] after it, at whatever instants, reports a miss on the absent
    key and leaves the cache as the first one left it. *)
Theorem expired_get_idempotent (cache : cache_t) (key : str) (d : track_data)
    (e now : Z) (later : list Z) :
  cache !! key = Some (d, e) -> e <= now ->
  cache_get now key cache = (None, delete key cache) /\
  cache_gets later key (delete key cache)
  = (map (fun _ => None) later, delete key cache).
Proof.
  intros H Hle. split.
  - eapply cache_get_expired; eassumption.
  - apply cache_gets_absent, lookup_delete_eq.
Qed.

Lemma expired_get_idempotent_witness :
  cache_get 100 (py "spotify:4cOdK2wGLETKBW3PvgPWqT")
    (<[py "spotify:4cOdK2wGLETKBW3PvgPWqT" := (sample_data, 70)]> ∅)
  = (None, delete (py "spotify:4cOdK2wGLETKBW3PvgPWqT")
             (<[py "spotify:4cOdK2wGLETKBW3PvgPWqT" := (sample_data, 70)]> ∅)) /\
  cache_gets [100; 101; 5]
    (py "spotify:4cOdK2wGLETKBW3PvgPWqT")
    (delete (py "spotify:4cOdK2wGLETKBW3PvgPWqT")
       (<[py "spotify:4cOdK2wGLETKBW3PvgPWqT" := (sample_data, 70)]> ∅))
  = ([None; None; None],
     delete (py "spotify:4cOdK2wGLETKBW3PvgPWqT")
       (<[py "spotify:4cOdK2wGLETKBW3PvgPWqT" := (sample_data, 70)]> ∅)).
Proof.
  apply (expired_get_idempotent _ _ sample_data 70 100 [100; 101; 5]).
  - reflexivity.
  - lia.
Defined.

(** ** C6: a cache hit *)

(** C6.  When the cache holds an entry for the identifier that has not
    expired at the time of the call, [get_spotify_data] returns the stored
    data, leaves the cache as it is and issues no upstream request, whatever
    the upstream endpoint would answer. *)
Theorem cache_hit_no_upstream (unicode_decimal : N -> bool) (cfg : config)
    (upstream : http_request -> http_outcome) (now : Z) (id : str)
    (cache : cache_t) (d : track_data) (e : Z) :
  cache !! (py "spotify:" ++ id) = Some (d, e) -> now < e ->
  get_spotify_data unicode_decimal cfg upstream now id cache = (Some d, cache, []).
Proof.
  intros H Hlt. unfold get_spotify_data.
  rewrite (cache_get_live _ _ _ _ _ H Hlt). reflexivity.
Qed.

Lemma cache_hit_no_upstream_witness :
  get_spotify_data (fun _ => false) default_config (fun _ => Timeout) 30
    (py "4cOdK2wGLETKBW3PvgPWqT")
    (<[py "spotify:" ++ py "4cOdK2wGLETKBW3PvgPWqT" := (sample_data, 70)]> ∅)
  = (Some sample_data,
     <[py "spotify:" ++ py "4cOdK2wGLETKBW3PvgPWqT" := (sample_data, 70)]> ∅, []).
Proof.
  apply (cache_hit_no_upstream _ _ _ 30 _ _ sample_data 70).
  - reflexivity.
  - lia.
Defined.

(** ** [re.search] finds the leftmost match *)

Lemma search_cons (r : Re.regex) (c : N) (t : str) :
  Re.search r (c :: t)
  = match Re.match_here r (c :: t) with
    | Some m => Some m
    | None => Re.search r t
    end.
Proof. reflexivity. Qed.

Lemma search_first (r : Re.regex) (t : str) (m : Re.match_obj) :
  Re.search r t = Some m <->
  exists n, Re.match_here r (drop n t) = Some m
            /\ forall k, (k < n)%nat -> Re.match_here r (drop k t) = None.
Proof.
  induction t as [|c t IH].
  - simpl. split.
    + intros H. exists 0%nat. split; [|lia].
      simpl. destruct (Re.match_here r []); congruence.
    + intros (n & H & _). rewrite drop_nil in H. rewrite H. reflexivity.
  - rewrite search_cons. destruct (Re.match_here r (c :: t)) as [m0|] eqn:E.
    + split.
      * intros [= <-]. exists 0%nat. split; [exact E | lia].
      * intros (n & H & Hk). destruct n as [|n]; [simpl in H; congruence|].
        specialize (Hk 0%nat). simpl in Hk. rewrite E in Hk.
        discriminate Hk. lia.
    + rewrite IH. split.
      * intros (n & H & Hk). exists (S n). split; [exact H|].
        intros [|k] Hlt; [exact E | apply Hk; lia].
      * intros (n & H & Hk). destruct n as [|n]; [simpl in H; congruence|].
        exists n. split; [exact H|].
        intros k Hlt. apply (Hk (S k)). lia.
Qed.

Lemma search_none (r : Re.regex) (t : str) :
  Re.search r t = None <-> forall n, Re.match_here r (drop n t) = None.
Proof.
  induction t as [|c t IH].
  - simpl. split.
    + intros H n. rewrite drop_nil. destruct (Re.match_here r []); congruence.
    + intros H. specialize (H 0%nat). simpl in H. rewrite H. reflexivity.
  - rewrite search_cons. split.
    + destruct (Re.match_here r (c :: t)) eqn:E; [discriminate|].
      intros H [|n]; [exact E | apply IH, H].
    + intros H. pose proof (H 0%nat) as H0. simpl in H0. rewrite H0.
      apply IH. intros n. apply (H (S n)).
Qed.

(** ** The pattern of line 38 *)

Lemma take_app_minus (w r : str) : take (length (w ++ r) - length r) (w ++ r) = w.
Proof.
  rewrite length_app. replace (length w + length r - length r)%nat with (length w) by lia.
  apply take_app_length.
Qed.

Lemma match_here_track_url (s : str) (m : Re.match_obj) :
  Re.match_here re_track_url s = Some m <->
  exists id, m = Some id /\ track_at s 0 id.
Proof.
  unfold Re.match_here, re_track_url, track_at, track_prefix, is_track_id.
  cbn [Re.run]. change (drop 0 s) with s. split.
  - intros H.
    destruct (strip_prefix (py "spotify.com/track/") s) as [s1|] eqn:E1.
    + apply strip_prefix_inv in E1 as ->.
      destruct (Re.rep alnum 22 s1) as [s2|] eqn:E2.
      * apply rep_inv in E2 as (w & -> & Hl & Hw).
        rewrite take_app_minus in H. injection H as <-.
        exists w. split; [reflexivity|]. exists (py "spotify.com/track/"), s2. auto.
      * exfalso. revert H. vm_compute. discriminate.
    + destruct (strip_prefix (py "spotify:track:") s) as [s1|] eqn:E3; [|discriminate].
      apply strip_prefix_inv in E3 as ->.
      destruct (Re.rep alnum 22 s1) as [s2|] eqn:E2; [|discriminate].
      apply rep_inv in E2 as (w & -> & Hl & Hw).
      rewrite take_app_minus in H. injection H as <-.
      exists w. split; [reflexivity|]. exists (py "spotify:track:"), s2. auto.
  - intros (id & -> & p & post & Hp & -> & Hl & Hw).
    destruct Hp as [-> | ->].
    + rewrite strip_prefix_app, <- Hl, rep_app by assumption.
      rewrite take_app_minus. reflexivity.
    + change (strip_prefix (py "spotify.com/track/") (py "spotify:track:" ++ id ++ post)) with (@None str).
      rewrite strip_prefix_app, <- Hl, rep_app by assumption.
      rewrite take_app_minus. reflexivity.
Qed.

Lemma track_at_drop (t : str) (n : nat) (id : str) :
  track_at (drop n t) 0 id <-> track_at t n id.
Proof. unfold track_at. rewrite drop_0. reflexivity. Qed.

Lemma track_prefix_nonempty (p : str) : track_prefix p -> p <> [].
Proof. intros [-> | ->]; discriminate. Qed.

Lemma track_at_nil (n : nat) (id : str) : ~ track_at [] n id.
Proof.
  intros (p & post & Hp & H & _). rewrite drop_nil in H.
  apply track_prefix_nonempty in Hp. destruct p; [congruence | discriminate].
Qed.

Lemma match_here_track_url_none (s : str) :
  Re.match_here re_track_url s = None <-> forall id, ~ track_at s 0 id.
Proof.
  split.
  - intros H id Hid.
    assert (E : Re.match_here re_track_url s = Some (Some id))
      by (apply match_here_track_url; eauto).
    congruence.
  - intros H. destruct (Re.match_here re_track_url s) as [m|] eqn:E; [|reflexivity].
    apply match_here_track_url in E as (id & _ & Hid). destruct (H _ Hid).
Qed.

(** [re.search] with the pattern of line 38 gives the identifier of the
    leftmost place that reads a prefix and 22 alphanumeric characters. *)
Lemma search_track_url_first (t : str) (m : Re.match_obj) :
  Re.search re_track_url t = Some m <->
  exists id, m = Some id /\ first_track t id.
Proof.
  rewrite search_first. unfold first_track. split.
  - intros (n & H & Hk). apply match_here_track_url in H as (id & -> & Hid).
    exists id. split; [reflexivity|]. exists n. split; [apply track_at_drop, Hid|].
    intros k id' Hlt Hat. specialize (Hk k Hlt).
    rewrite match_here_track_url_none in Hk. apply (Hk id'), track_at_drop, Hat.
  - intros (id & -> & n & Hid & Hk). exists n. split.
    + apply match_here_track_url. exists id. split; [reflexivity|].
      apply track_at_drop, Hid.
    + intros k Hlt. apply match_here_track_url_none. intros id' Hat.
      apply (Hk k id' Hlt), track_at_drop, Hat.
Qed.

Lemma search_track_url_none (t : str) :
  Re.search re_track_url t = None <-> forall n id, ~ track_at t n id.
Proof.
  rewrite search_none. split.
  - intros H n id Hat. specialize (H n). rewrite match_here_track_url_none in H.
    apply (H id), track_at_drop, Hat.
  - intros H n. apply match_here_track_url_none. intros id Hat.
    apply (H n id), track_at_drop, Hat.
Qed.

Lemma first_track_is_id (t id : str) : first_track t id -> is_track_id id.
Proof. intros (n & (p & post & _ & _ & H) & _). exact H. Qed.

Lemma first_track_unique (t id id' : str) :
  first_track t id -> first_track t id' -> id = id'.
Proof.
  intros H H'.
  assert (E : Re.search re_track_url t = Some (Some id))
    by (apply search_track_url_first; eauto).
  assert (E' : Re.search re_track_url t = Some (Some id'))
    by (apply search_track_url_first; eauto).
  congruence.
Qed.

(** ** What the extractor computes *)

Lemma fullmatch_track_id_dec (s : str) :
  (Re.fullmatch re_track_id s <> None /\ is_track_id s)
  \/ (Re.fullmatch re_track_id s = None /\ ~ is_track_id s).
Proof.
  destruct (Re.fullmatch re_track_id s) eqn:E.
  - left. split; [done|]. apply fullmatch_track_id. rewrite E. done.
  - right. split; [done|]. intros H. apply fullmatch_track_id in H. congruence.
Qed.

Lemma extract_not_bare (s : str) :
  ~ is_track_id s ->
  extract_spotify_track_id s = search_track_id (unquote s).
Proof.
  intros Hn. unfold extract_spotify_track_id.
  destruct (fullmatch_track_id_dec s) as [[_ H] | [E _]]; [contradiction|].
  rewrite E. destruct s; [|reflexivity].
  reflexivity.
Qed.

Lemma extract_spec (s id : str) :
  extract_spotify_track_id s = Some id <->
  (is_track_id s /\ id = s) \/ (~ is_track_id s /\ first_track (unquote s) id).
Proof.
  destruct (fullmatch_track_id_dec s) as [[_ H] | [_ H]].
  - rewrite (extract_of_track_id s H). split.
    + intros [= <-]. left. auto.
    + intros [[_ ->] | [Hn _]]; [reflexivity | contradiction].
  - rewrite (extract_not_bare s H). unfold search_track_id. split.
    + destruct (Re.search re_track_url (unquote s)) as [m|] eqn:E; [|discriminate].
      intros ->. apply search_track_url_first in E as (id' & [= <-] & Hf).
      right. auto.
    + intros [[Hb _] | [_ Hf]]; [contradiction|].
      assert (E : Re.search re_track_url (unquote s) = Some (Some id))
        by (apply search_track_url_first; eauto).
      rewrite E. reflexivity.
Qed.

Lemma extract_none (s : str) :
  extract_spotify_track_id s = None <->
  ~ is_track_id s /\ forall n id, ~ track_at (unquote s) n id.
Proof.
  destruct (fullmatch_track_id_dec s) as [[_ H] | [_ H]].
  - rewrite (extract_of_track_id s H). split; [discriminate|].
    intros [Hn _]. contradiction.
  - rewrite (extract_not_bare s H), <- search_track_url_none.
    unfold search_track_id.
    destruct (Re.search re_track_url (unquote s)) as [m|] eqn:E.
    + apply search_track_url_first in E as (id & -> & _).
      split; [discriminate | intros [_ ?]; discriminate].
    + split; auto.
Qed.

(** Whatever the extractor returns is a string of 22 alphanumeric
    characters. *)
Lemma extract_is_track_id (s id : str) :
  extract_spotify_track_id s = Some id -> is_track_id id.
Proof.
  intros H. apply extract_spec in H as [[H ->] | [_ H]]; [exact H|].
  eapply first_track_is_id, H.
Qed.

(** ** [unquote] keeps an encoded ASCII word *)

Lemma unquote_to_bytes_encoded (e w post : str) :
  pct_encodes e w ->
  unquote_to_bytes (e ++ post) = w ++ unquote_to_bytes post.
Proof.
  induction 1 as [|c e w Hc _ IH|h1 h2 a b e w Ha Hb _ IH]; simpl.
  - reflexivity.
  - destruct (N.eqb_spec c percent); [contradiction|]. rewrite IH. reflexivity.
  - rewrite Ha, Hb, IH. reflexivity.
Qed.

(** One step of the scan: a character is kept, or an escape of three
    characters becomes one byte. *)
Lemma unquote_to_bytes_step (c : N) (rest : str) :
  unquote_to_bytes (c :: rest) = c :: unquote_to_bytes rest
  \/ exists h1 h2 r' b,
       c = percent /\ rest = h1 :: h2 :: r'
       /\ hex_value h1 <> None /\ hex_value h2 <> None
       /\ unquote_to_bytes (c :: rest) = b :: unquote_to_bytes r'.
Proof.
  cbn [unquote_to_bytes].
  destruct (N.eqb_spec c percent) as [->|]; [|left; reflexivity].
  destruct rest as [|h1 [|h2 r']]; try (left; reflexivity).
  destruct (hex_value h1) as [a|] eqn:Ha; [|left; reflexivity].
  destruct (hex_value h2) as [b|] eqn:Hb; [|left; reflexivity].
  right. exists h1, h2, r', (16 * a + b)%N. rewrite Ha, Hb. done.
Qed.

(** The scan cannot step over a character that is not a hexadecimal
    digit: what precedes it does not change how the rest is read. *)
Lemma unquote_to_bytes_boundary (n : nat) (pre r : str) :
  (length pre <= n)%nat ->
  match r with [] => True | h :: _ => hex_value h = None end ->
  exists x, unquote_to_bytes (pre ++ r) = x ++ unquote_to_bytes r.
Proof.
  revert pre. induction n as [|n IH]; intros pre Hn Hr.
  - destruct pre; [|simpl in Hn; lia]. exists []. reflexivity.
  - destruct pre as [|c pre]; [exists []; reflexivity|].
    simpl in Hn.
    destruct (unquote_to_bytes_step c (pre ++ r)) as [E | (h1 & h2 & r' & b & _ & E & H1 & H2 & Eb)].
    + destruct (IH pre ltac:(lia) Hr) as [x Hx].
      exists (c :: x). simpl app. rewrite E, Hx. reflexivity.
    + destruct pre as [|p1 [|p2 pre]]; simpl in E.
      * subst r. contradiction.
      * injection E as -> E. subst r. contradiction.
      * injection E as -> -> <-. simpl in Hn.
        destruct (IH pre ltac:(lia) Hr) as [x Hx].
        exists (b :: x). simpl app. simpl app in Eb. rewrite Eb, Hx. reflexivity.
Qed.

Lemma is_cont_not_ascii (a : N) : (a < 128)%N -> is_cont a = false.
Proof.
  intros H. unfold is_cont, in_range.
  destruct (N.leb_spec 128 a); [lia | reflexivity].
Qed.

Ltac rewrite_cont :=
  repeat match goal with
         | H : is_cont _ = true |- _ => rewrite H; clear H
         end;
  reflexivity.

(** One step of the decoder: it gives one character and resumes after at
    most three continuation bytes. *)
Lemma utf8_step (b : N) (r : list N) :
  exists x k, utf8_decode (b :: r) = x :: utf8_decode (drop k r)
              /\ forallb is_cont (take k r) = true.
Proof.
  cbn [utf8_decode].
  repeat match goal with
         | |- context [if ?c then _ else _] => destruct c eqn:?
         | |- context [match ?l with [] => _ | _ :: _ => _ end] => destruct l
         end;
    repeat match goal with
           | H : (_ || _) = false |- _ => apply orb_false_elim in H as [? ?]
           | H : negb _ = false |- _ => apply negb_false_iff in H
           end;
    first [ by (eexists _, 0%nat)
          | by (eexists _, 1%nat; split; [reflexivity | simpl; rewrite_cont])
          | by (eexists _, 2%nat; split; [reflexivity | simpl; rewrite_cont])
          | by (eexists _, 3%nat; split; [reflexivity | simpl; rewrite_cont]) ].
Qed.

Lemma utf8_boundary (n : nat) (pre : list N) (a : N) (post : list N) :
  (length pre <= n)%nat -> (a < 128)%N ->
  exists x, utf8_decode (pre ++ a :: post) = x ++ a :: utf8_decode post.
Proof.
  revert pre. induction n as [|n IH]; intros pre Hn Ha.
  - destruct pre; [|simpl in Hn; lia]. exists []. simpl.
    destruct (N.ltb_spec a 128); [reflexivity | lia].
  - destruct pre as [|b pre].
    + exists []. simpl. destruct (N.ltb_spec a 128); [reflexivity | lia].
    + simpl in Hn. destruct (utf8_step b (pre ++ a :: post)) as (x & k & E & Hc).
      destruct (Nat.le_gt_cases k (length pre)) as [Hk | Hk].
      * rewrite drop_app_le in E by exact Hk.
        destruct (IH (drop k pre)) as [y Hy]; [rewrite length_drop; lia | exact Ha |].
        exists (x :: y). simpl app. rewrite E, Hy. reflexivity.
      * exfalso. rewrite take_app_ge in Hc by lia.
        rewrite forallb_app in Hc. apply andb_prop in Hc as [_ Hc].
        destruct (k - length pre)%nat as [|j] eqn:Ej; [lia|].
        simpl in Hc. rewrite (is_cont_not_ascii a Ha) in Hc. discriminate.
Qed.

Lemma utf8_decode_ascii (w r : list N) :
  forallb is_ascii w = true -> utf8_decode (w ++ r) = w ++ utf8_decode r.
Proof.
  induction w as [|c w IH]; intros H; [reflexivity|].
  simpl in H. apply andb_prop in H as [Hc Hw].
  simpl. unfold is_ascii in Hc. rewrite Hc, (IH Hw). reflexivity.
Qed.

Lemma utf8_decode_keeps_ascii (pre w post : list N) :
  w <> [] -> forallb is_ascii w = true ->
  exists x, utf8_decode (pre ++ w ++ post) = x ++ w ++ utf8_decode post.
Proof.
  intros Hne Hw. destruct w as [|a w]; [contradiction|].
  simpl in Hw. apply andb_prop in Hw as [Ha Hw].
  destruct (utf8_boundary (length pre) pre a (w ++ post)) as [x Hx]; [lia | |].
  - unfold is_ascii in Ha. apply N.ltb_lt, Ha.
  - exists x. simpl app. rewrite Hx, (utf8_decode_ascii w post Hw). reflexivity.
Qed.

Lemma unquote_parts_ascii (e rest run : str) :
  forallb is_ascii e = true ->
  unquote_parts (e ++ rest) run = unquote_parts rest (run ++ e).
Proof.
  revert run. induction e as [|c e IH]; intros run H; simpl.
  - rewrite app_nil_r. reflexivity.
  - simpl in H. apply andb_prop in H as [Hc He].
    rewrite Hc, (IH _ He), <- app_assoc. reflexivity.
Qed.

Lemma unquote_parts_tail (s run : str) :
  exists r2 y, unquote_parts s run = unquote_part (run ++ r2) ++ y.
Proof.
  revert run. induction s as [|c s IH]; intros run; simpl.
  - exists [], []. rewrite !app_nil_r. reflexivity.
  - destruct (is_ascii c).
    + destruct (IH (run ++ [c])) as (r2 & y & E).
      exists (c :: r2), y. rewrite E, <- app_assoc. reflexivity.
    + exists [], (c :: unquote_parts s []). rewrite app_nil_r. reflexivity.
Qed.

Lemma unquote_parts_head (pre rest run : str) :
  exists x r1, unquote_parts (pre ++ rest) run = x ++ unquote_parts rest r1.
Proof.
  revert run. induction pre as [|c pre IH]; intros run; simpl.
  - exists [], run. reflexivity.
  - destruct (is_ascii c).
    + apply IH.
    + destruct (IH []) as (x & r1 & E).
      exists (unquote_part run ++ c :: x), r1. rewrite E, <- app_assoc. reflexivity.
Qed.

Lemma hex_value_ascii (h a : N) : hex_value h = Some a -> is_ascii h = true.
Proof.
  unfold hex_value, in_range, is_ascii.
  repeat match goal with
         | |- context [(?x <=? ?y)%N] => destruct (N.leb_spec x y); simpl
         end; try discriminate; intros _; apply N.ltb_lt; lia.
Qed.

Lemma pct_encodes_ascii (e w : str) :
  pct_encodes e w -> forallb is_ascii w = true -> forallb is_ascii e = true.
Proof.
  induction 1 as [|c e w Hc _ IH|h1 h2 a b e w Ha Hb _ IH]; simpl; intros H.
  - reflexivity.
  - apply andb_prop in H as [H1 H2]. rewrite H1. auto.
  - apply andb_prop in H as [_ H2].
    rewrite (hex_value_ascii _ _ Ha), (hex_value_ascii _ _ Hb). auto.
Qed.

Lemma pct_encodes_length (e w : str) :
  pct_encodes e w -> (length w <= length e)%nat.
Proof. induction 1; simpl; lia. Qed.

Lemma pct_encodes_literal (e w : str) :
  pct_encodes e w -> existsb (N.eqb percent) e = false -> e = w.
Proof.
  induction 1 as [|c e w Hc _ IH|h1 h2 a b e w Ha Hb _ IH]; simpl; intros H.
  - reflexivity.
  - apply orb_false_elim in H as [_ H]. f_equal. auto.
  - discriminate.
Qed.

(** The first character of an encoding of a word that starts with a
    character that is no hexadecimal digit is no hexadecimal digit. *)
Lemma pct_encodes_head (e w : str) :
  pct_encodes e w ->
  match w with [] => True | c :: _ => hex_value c = None end ->
  match e with [] => True | h :: _ => hex_value h = None end.
Proof. destruct 1; auto. Qed.

Lemma unquote_parts_keeps (pre e w post : str) :
  pct_encodes e w -> w <> [] -> forallb is_ascii w = true ->
  match w with [] => True | c :: _ => hex_value c = None end ->
  exists x y, unquote_parts (pre ++ e ++ post) [] = x ++ w ++ y.
Proof.
  intros He Hne Hw Hhd.
  destruct (unquote_parts_head pre (e ++ post) []) as (x & r1 & E1).
  rewrite E1, unquote_parts_ascii by (eapply pct_encodes_ascii; eassumption).
  destruct (unquote_parts_tail post (r1 ++ e)) as (r2 & y & E2).
  rewrite E2. unfold unquote_part. rewrite <- app_assoc.
  destruct (unquote_to_bytes_boundary (length r1) r1 (e ++ r2)) as [x1 E3]; [lia | |].
  - pose proof (pct_encodes_head e w He Hhd) as Hh.
    destruct e; [inversion He; subst; contradiction | exact Hh].
  - rewrite E3, (unquote_to_bytes_encoded e w r2 He).
    destruct (utf8_decode_keeps_ascii x1 w (unquote_to_bytes r2) Hne Hw) as [x2 E4].
    rewrite E4. exists (x ++ x2), (utf8_decode (unquote_to_bytes r2) ++ y).
    rewrite <- !app_assoc. reflexivity.
Qed.

(** [unquote] keeps every encoded ASCII word whose first character is no
    hexadecimal digit, whatever stands around its encoding. *)
Lemma unquote_keeps (pre e w post : str) :
  pct_encodes e w -> w <> [] -> forallb is_ascii w = true ->
  match w with [] => True | c :: _ => hex_value c = None end ->
  exists x y, unquote (pre ++ e ++ post) = x ++ w ++ y.
Proof.
  intros He Hne Hw Hhd. unfold unquote.
  destruct (existsb (N.eqb percent) (pre ++ e ++ post)) eqn:E.
  - apply unquote_parts_keeps; assumption.
  - rewrite !existsb_app in E.
    apply orb_false_elim in E as [_ E]. apply orb_false_elim in E as [E _].
    rewrite (pct_encodes_literal e w He E). eauto.
Qed.

(** ** [unquote] without a well-formed escape is the identity *)

Lemma wellformed_escape_cons (c : N) (s : str) :
  wellformed_escape s -> wellformed_escape (c :: s).
Proof.
  intros (pre & h1 & h2 & post & -> & H). exists (c :: pre), h1, h2, post. auto.
Qed.

Lemma wellformed_escape_app (r s : str) :
  wellformed_escape s -> wellformed_escape (r ++ s).
Proof. induction r; simpl; auto using wellformed_escape_cons. Qed.

Lemma wellformed_escape_app_l (r s : str) :
  wellformed_escape r -> wellformed_escape (r ++ s).
Proof.
  intros (pre & h1 & h2 & post & -> & H). exists pre, h1, h2, (post ++ s).
  rewrite <- app_assoc. auto.
Qed.

Lemma unquote_to_bytes_no_escape (r : str) :
  ~ wellformed_escape r -> unquote_to_bytes r = r.
Proof.
  induction r as [|c r IH]; intros Hn; [reflexivity|].
  destruct (unquote_to_bytes_step c r) as [E | (h1 & h2 & r' & b & -> & -> & H1 & H2 & _)].
  - rewrite E, IH; [reflexivity|]. intros H. apply Hn, wellformed_escape_cons, H.
  - destruct Hn. exists [], h1, h2, r'. auto.
Qed.

Lemma utf8_decode_ascii_id (w : list N) :
  forallb is_ascii w = true -> utf8_decode w = w.
Proof.
  intros H. rewrite <- (app_nil_r w) at 1.
  rewrite (utf8_decode_ascii w [] H). simpl. apply app_nil_r.
Qed.

Lemma unquote_parts_no_escape (s run : str) :
  forallb is_ascii run = true -> ~ wellformed_escape (run ++ s) ->
  unquote_parts s run = run ++ s.
Proof.
  revert run. induction s as [|c s IH]; intros run Hrun Hn; simpl.
  - rewrite app_nil_r in *. unfold unquote_part.
    rewrite (unquote_to_bytes_no_escape run Hn). apply utf8_decode_ascii_id, Hrun.
  - destruct (is_ascii c) eqn:Hc.
    + rewrite IH.
      * rewrite <- app_assoc. reflexivity.
      * rewrite forallb_app, Hrun. simpl. rewrite Hc. reflexivity.
      * rewrite <- app_assoc. exact Hn.
    + unfold unquote_part. rewrite unquote_to_bytes_no_escape, utf8_decode_ascii_id.
      * rewrite (IH []); [reflexivity | reflexivity |].
        intros H. apply Hn, wellformed_escape_app, wellformed_escape_cons, H.
      * exact Hrun.
      * intros H. apply Hn, wellformed_escape_app_l, H.
Qed.

(** An input with no well-formed escape is its own decoding. *)
Lemma unquote_no_escape (s : str) : ~ wellformed_escape s -> unquote s = s.
Proof.
  intros Hn. unfold unquote. destruct (existsb _ s); [|reflexivity].
  apply (unquote_parts_no_escape s []); [reflexivity | exact Hn].
Qed.

Lemma alnum_not_percent (s : str) :
  forallb alnum s = true -> existsb (N.eqb percent) s = false.
Proof.
  induction s as [|c s IH]; cbn [forallb existsb]; intros H; [reflexivity|].
  apply andb_prop in H as [Hc Hs]. rewrite (IH Hs), orb_false_r.
  destruct (N.eqb_spec percent c) as [<-|]; [discriminate Hc | reflexivity].
Qed.

Lemma malformed_escape_not_track_id (s : str) :
  malformed_escape s -> ~ is_track_id s.
Proof.
  intros (pre & post & -> & _) [_ Hw]. apply alnum_not_percent in Hw.
  rewrite existsb_app in Hw. simpl in Hw. rewrite orb_true_r in Hw. discriminate.
Qed.

Lemma track_prefix_ascii (p : str) : track_prefix p -> forallb is_ascii p = true.
Proof. intros [-> | ->]; reflexivity. Qed.

Lemma track_prefix_head (p rest : str) :
  track_prefix p ->
  match p ++ rest with [] => True | c :: _ => hex_value c = None end.
Proof. intros [-> | ->]; reflexivity. Qed.

Lemma alnum_ascii (c : N) : alnum c = true -> is_ascii c = true.
Proof.
  unfold alnum, in_range, is_ascii.
  repeat match goal with
         | |- context [(?x <=? ?y)%N] => destruct (N.leb_spec x y); simpl
         end; try discriminate; intros _; apply N.ltb_lt; lia.
Qed.

Lemma is_track_id_ascii (id : str) : is_track_id id -> forallb is_ascii id = true.
Proof.
  intros [_ H]. induction id as [|c id IH]; [reflexivity|].
  simpl in *. apply andb_prop in H as [Hc Hid].
  rewrite (alnum_ascii c Hc). auto.
Qed.

Lemma track_at_length (t : str) (n : nat) (id : str) :
  track_at t n id -> (22 < length t)%nat.
Proof.
  intros (p & post & Hp & E & Hl & _).
  apply (f_equal length) in E. rewrite length_drop, !length_app, Hl in E.
  assert (0 < length p)%nat; [|lia].
  destruct Hp as [-> | ->]; simpl; lia.
Qed.

(** A place that reads a prefix and an identifier makes the search succeed,
    at that place or at an earlier one. *)
Lemma track_at_first_track (t : str) (n : nat) (id : str) :
  track_at t n id -> exists id', first_track t id'.
Proof.
  intros Hat. destruct (Re.search re_track_url t) as [m|] eqn:E.
  - apply search_track_url_first in E as (id' & _ & H). eauto.
  - rewrite search_track_url_none in E. destruct (E n id Hat).
Qed.

(** An encoded occurrence of a prefix and an identifier, anywhere in the
    input, makes the extractor return the identifier of the leftmost
    occurrence of the decoded input. *)
Lemma extract_encoded_occurrence (pre e post p id : str) :
  track_prefix p -> is_track_id id -> pct_encodes e (p ++ id) ->
  exists id', first_track (unquote (pre ++ e ++ post)) id'
              /\ extract_spotify_track_id (pre ++ e ++ post) = Some id'.
Proof.
  intros Hp Hid He.
  destruct (unquote_keeps pre e (p ++ id) post He) as (x & y & E).
  - apply track_prefix_nonempty in Hp. destruct p; [contradiction | discriminate].
  - rewrite forallb_app, (track_prefix_ascii p Hp), (is_track_id_ascii id Hid). reflexivity.
  - apply track_prefix_head, Hp.
  - assert (Hat : track_at (unquote (pre ++ e ++ post)) (length x) id).
    { exists p, y. rewrite E, drop_app_length, <- app_assoc. auto. }
    destruct (track_at_first_track _ _ _ Hat) as [id' Hf].
    exists id'. split; [exact Hf|].
    apply extract_spec. right. split; [|exact Hf].
    intros [Hl _]. apply pct_encodes_length in He.
    rewrite !length_app in Hl. rewrite length_app in He.
    destruct Hid as [Hid _].
    assert (0 < length p)%nat by (destruct Hp as [-> | ->]; simpl; lia).
    lia.
Qed.

Lemma first_track_search (t id : str) :
  Re.search re_track_url t = Some (Some id) -> first_track t id.
Proof.
  intros H. apply search_track_url_first in H as (id' & [= <-] & H). exact H.
Qed.

Lemma no_track_search (t : str) :
  Re.search re_track_url t = None -> forall n id, ~ track_at t n id.
Proof. apply search_track_url_none. Qed.

Lemma has_escape_false (s : str) : has_escape s = false -> ~ wellformed_escape s.
Proof.
  intros H (pre & h1 & h2 & post & -> & H1 & H2).
  induction pre as [|c pre IH]; cbn [has_escape app] in H.
  - rewrite N.eqb_refl in H.
    destruct (hex_value h1); [|contradiction].
    destruct (hex_value h2); [|contradiction].
    discriminate H.
  - apply orb_false_elim in H as [_ H]. auto.
Qed.

Lemma pct_encodes_refl (w : str) :
  existsb (N.eqb percent) w = false -> pct_encodes w w.
Proof.
  induction w as [|c w IH]; cbn [existsb]; intros H; [constructor|].
  apply orb_false_elim in H as [Hc Hw].
  constructor; [|auto]. intros ->. discriminate Hc.
Qed.

Lemma track_occurrence_no_percent (p id : str) :
  track_prefix p -> is_track_id id -> existsb (N.eqb percent) (p ++ id) = false.
Proof.
  intros Hp [_ Hw]. rewrite existsb_app, (alnum_not_percent id Hw), orb_false_r.
  destruct Hp as [-> | ->]; reflexivity.
Qed.

(** A plain occurrence in the raw input is an encoded occurrence. *)
Lemma extract_raw_occurrence (s : str) (n : nat) (id : str) :
  track_at s n id ->
  exists id', first_track (unquote s) id' /\ extract_spotify_track_id s = Some id'.
Proof.
  intros (p & post & Hp & E & Hid).
  rewrite (app_assoc p id post) in E. rewrite <- (take_drop n s), E.
  apply (extract_encoded_occurrence _ _ _ p id); [exact Hp | exact Hid |].
  apply pct_encodes_refl, track_occurrence_no_percent; assumption.
Qed.

(** ** C1: links and URIs *)

(** C1, as the code has it: the claim's [that id] is the identifier of the
    leftmost occurrence.  (1) When the percent-decoded input reads, at its
    leftmost such place, [spotify.com/track/] or [spotify:track:] and then
    22 alphanumeric characters, the extractor returns those 22 characters.
    (2) An input that holds such an occurrence, plain or percent-encoded
    in whole or in part, is decoded to a string with an occurrence, and the
    extractor returns the identifier of the leftmost one.  (3) An input that
    is no bare identifier and whose decoding has no occurrence gives [None]. *)
Theorem extract_track_url (s : str) :
  (forall id, first_track (unquote s) id -> extract_spotify_track_id s = Some id)
  /\ (forall pre e post p id,
        s = pre ++ e ++ post ->
        track_prefix p -> is_track_id id -> pct_encodes e (p ++ id) ->
        exists id', first_track (unquote s) id'
                    /\ extract_spotify_track_id s = Some id')
  /\ (~ is_track_id s -> (forall n id, ~ track_at (unquote s) n id) ->
      extract_spotify_track_id s = None).
Proof.
  split; [|split].
  - intros id Hf. apply extract_spec. right. split; [|exact Hf].
    intros [Hl Hw]. unfold unquote in Hf. rewrite (alnum_not_percent s Hw) in Hf.
    destruct Hf as (n & Hat & _). apply track_at_length in Hat. lia.
  - intros pre e post p id -> Hp Hid He.
    apply extract_encoded_occurrence with (p := p) (id := id); assumption.
  - intros Hn Hno. apply extract_none. auto.
Qed.

Lemma extract_track_url_witness :
  extract_spotify_track_id
    (py "https%3A%2F%2Fopen.spotify.com%2Ftrack%2F4cOdK2wGLETKBW3PvgPWqT%3Fsi%3Dabc")
  = Some (py "4cOdK2wGLETKBW3PvgPWqT")
  /\ extract_spotify_track_id (py "%zz4cOdK2wGLETKBW3PvgPWq") = None.
Proof.
  split.
  - apply (proj1 (extract_track_url _) (py "4cOdK2wGLETKBW3PvgPWqT")).
    apply first_track_search. vm_compute. reflexivity.
  - apply (proj2 (proj2 (extract_track_url _))).
    + intros [Hl _]. vm_compute in Hl. discriminate Hl.
    + apply no_track_search. vm_compute. reflexivity.
Defined.

(** C1 as stated fails: [two_tracks] holds [spotify:track:] followed by the
    22 characters [7ouMYWpwJ422jRcDASZB7P], and the extractor returns the
    identifier of the link before it. *)
Lemma extract_two_tracks_counterexample :
  str_in (py "spotify:track:7ouMYWpwJ422jRcDASZB7P") two_tracks = true
  /\ forallb alnum (py "7ouMYWpwJ422jRcDASZB7P") = true
  /\ length (py "7ouMYWpwJ422jRcDASZB7P") = 22%nat
  /\ extract_spotify_track_id two_tracks = Some (py "4cOdK2wGLETKBW3PvgPWqT")
  /\ extract_spotify_track_id two_tracks <> Some (py "7ouMYWpwJ422jRcDASZB7P").
Proof. vm_compute. repeat split; discriminate. Qed.

(** ** C4: malformed escapes *)

(** C4, as the code has it.  [unquote] has no failure to fall back from: it
    keeps a malformed escape as it is and decodes the well-formed ones of
    the same input.  For every input with a malformed escape: the extractor
    returns [None] or 22 alphanumeric characters; what it returns is the
    result of the search in the decoded input; when the input has no
    well-formed escape, that is the search in the raw input; and when the
    search in the raw input succeeds, the extractor returns an identifier. *)
Theorem extract_malformed_escape (s : str) :
  malformed_escape s ->
  (extract_spotify_track_id s = None
   \/ exists id, extract_spotify_track_id s = Some id /\ is_track_id id)
  /\ extract_spotify_track_id s = search_track_id (unquote s)
  /\ (~ wellformed_escape s -> extract_spotify_track_id s = search_track_id s)
  /\ (forall id, search_track_id s = Some id ->
      exists id', extract_spotify_track_id s = Some id').
Proof.
  intros Hm. pose proof (malformed_escape_not_track_id s Hm) as Hn.
  repeat split.
  - destruct (extract_spotify_track_id s) as [id|] eqn:E; [right | left; reflexivity].
    exists id. split; [reflexivity|]. eapply extract_is_track_id, E.
  - apply extract_not_bare, Hn.
  - intros Hw. rewrite (extract_not_bare s Hn), (unquote_no_escape s Hw). reflexivity.
  - intros id. unfold search_track_id.
    destruct (Re.search re_track_url s) as [m|] eqn:E; [|discriminate].
    intros ->. apply first_track_search in E as (n & Hat & _).
    destruct (extract_raw_occurrence s n id Hat) as (id' & _ & H). eauto.
Qed.

Lemma extract_malformed_escape_witness :
  extract_spotify_track_id (py "%zz/spotify.com/track/4cOdK2wGLETKBW3PvgPWqT%")
  = search_track_id (py "%zz/spotify.com/track/4cOdK2wGLETKBW3PvgPWqT%").
Proof.
  apply (extract_malformed_escape (py "%zz/spotify.com/track/4cOdK2wGLETKBW3PvgPWqT%")).
  - exists [], (py "zz/spotify.com/track/4cOdK2wGLETKBW3PvgPWqT%").
    split; [reflexivity | left; reflexivity].
  - apply has_escape_false. reflexivity.
Defined.

(** C4 as stated fails: [mixed_escapes] has the malformed escape [%zz]; the
    search in the raw string captures [7ouMYWpwJ422jRcDASZB7P], and the
    extractor returns the identifier of the encoded link before it, which
    the raw string does not show. *)
Lemma extract_mixed_escapes_counterexample :
  malformed_escape mixed_escapes
  /\ search_track_id mixed_escapes = Some (py "7ouMYWpwJ422jRcDASZB7P")
  /\ extract_spotify_track_id mixed_escapes = Some (py "4cOdK2wGLETKBW3PvgPWqT").
Proof.
  split; [|vm_compute; auto].
  exists [], (List.tl mixed_escapes). split; [reflexivity | left; reflexivity].
Qed.

(** ** Attribute patterns: a name, a quoted value of one class *)

(** Once the class has taken all it can, a continuation that rejects
    every input starting in the class leaves nothing to backtrack to. *)
Lemma star_app {X} (f : N -> bool) (w r : str) (k : str -> option X) :
  (forall c t, f c = true -> k (c :: t) = None) ->
  forallb f w = true ->
  match r with [] => True | c :: _ => f c = false end ->
  Re.star f (w ++ r) k = k r.
Proof.
  intros Hk Hw Hr. induction w as [|c w IH]; simpl.
  - destruct r as [|c r]; [reflexivity|]. simpl. rewrite Hr. reflexivity.
  - simpl in Hw. apply andb_prop in Hw as [Hc Hw]. rewrite Hc, (IH Hw).
    destruct (k r) eqn:E; [reflexivity|]. apply Hk, Hc.
Qed.

Lemma star_inv {X} (f : N -> bool) (s : str) (k : str -> option X) (x : X) :
  Re.star f s k = Some x ->
  exists w r, s = w ++ r /\ forallb f w = true /\ k r = Some x.
Proof.
  induction s as [|c s IH]; simpl; intros H.
  - exists [], []. auto.
  - destruct (f c) eqn:Hc; [|exists [], (c :: s); auto].
    destruct (Re.star f s k) as [y|] eqn:E.
    + injection H as ->. destruct (IH eq_refl) as (w & r & -> & Hw & Hr).
      exists (c :: w), r. simpl. rewrite Hc. auto.
    + exists [], (c :: s). auto.
Qed.

Section Attribute.

Variable name : str.
Variable f : N -> bool.
Hypothesis f_dquote : f dquote = false.

Lemma match_here_attr (s : str) (m : Re.match_obj) :
  Re.match_here (attr_pattern name f) s = Some m <->
  exists v, m = Some v /\ attr_at name f s 0 v.
Proof.
  unfold Re.match_here, attr_pattern, attr_at. cbn [Re.run]. rewrite drop_0. split.
  - destruct (strip_prefix (name ++ [dquote]) s) as [s1|] eqn:E1; [|discriminate].
    apply strip_prefix_inv in E1 as ->. unfold Re.plus.
    destruct s1 as [|c s1]; [discriminate|].
    destruct (f c) eqn:Hc; [|discriminate].
    intros H. apply star_inv in H as (w & r & -> & Hw & H).
    destruct (strip_prefix [dquote] r) as [post|] eqn:E2; [|discriminate].
    apply strip_prefix_inv in E2 as ->. injection H as <-.
    exists (c :: w). split.
    + f_equal. apply (take_app_minus (c :: w) ([dquote] ++ post)).
    + exists post. rewrite <- app_assoc. simpl. rewrite Hc. auto.
  - intros (v & -> & post & -> & Hne & Hv).
    replace (name ++ dquote :: v ++ dquote :: post)
      with ((name ++ [dquote]) ++ v ++ dquote :: post)
      by (rewrite <- app_assoc; reflexivity).
    rewrite strip_prefix_app. destruct v as [|c w]; [contradiction|].
    simpl in Hv. apply andb_prop in Hv as [Hc Hw].
    cbn [Re.plus app]. rewrite Hc, star_app.
    + cbn [strip_prefix]. rewrite N.eqb_refl. f_equal. f_equal.
      apply (take_app_minus (c :: w) (dquote :: post)).
    + intros c' t Hc'. cbn [strip_prefix].
      destruct (N.eqb_spec dquote c') as [<-|]; [congruence | reflexivity].
    + exact Hw.
    + exact f_dquote.
Qed.

Lemma match_here_attr_none (s : str) :
  Re.match_here (attr_pattern name f) s = None <-> forall v, ~ attr_at name f s 0 v.
Proof.
  split.
  - intros H v Hv.
    assert (E : Re.match_here (attr_pattern name f) s = Some (Some v))
      by (apply match_here_attr; eauto).
    congruence.
  - intros H. destruct (Re.match_here (attr_pattern name f) s) as [m|] eqn:E; [|reflexivity].
    apply match_here_attr in E as (v & _ & Hv). destruct (H _ Hv).
Qed.

Lemma attr_at_drop (t : str) (n : nat) (v : str) :
  attr_at name f (drop n t) 0 v <-> attr_at name f t n v.
Proof. unfold attr_at. rewrite drop_0. reflexivity. Qed.

(** [re.search] with an attribute pattern captures the value of the
    leftmost place that reads the name and a quoted value. *)
Lemma search_attr_first (t : str) (m : Re.match_obj) :
  Re.search (attr_pattern name f) t = Some m <->
  exists v, m = Some v /\ first_attr name f t v.
Proof.
  rewrite search_first. unfold first_attr. split.
  - intros (n & H & Hk). apply match_here_attr in H as (v & -> & Hv).
    exists v. split; [reflexivity|]. exists n. split; [apply attr_at_drop, Hv|].
    intros k v' Hlt Hat. specialize (Hk k Hlt).
    rewrite match_here_attr_none in Hk. apply (Hk v'), attr_at_drop, Hat.
  - intros (v & -> & n & Hv & Hk). exists n. split.
    + apply match_here_attr. exists v. split; [reflexivity|].
      apply attr_at_drop, Hv.
    + intros k Hlt. apply match_here_attr_none. intros v' Hat.
      apply (Hk k v' Hlt), attr_at_drop, Hat.
Qed.

Lemma search_attr_none (t : str) :
  Re.search (attr_pattern name f) t = None <-> forall n v, ~ attr_at name f t n v.
Proof.
  rewrite search_none. split.
  - intros H n v Hat. specialize (H n). rewrite match_here_attr_none in H.
    apply (H v), attr_at_drop, Hat.
  - intros H n. apply match_here_attr_none. intros v Hat.
    apply (H n v), attr_at_drop, Hat.
Qed.

(** What [group(1) if m else default] is for an attribute pattern. *)
Lemma group1_or_attr (t default : str) :
  first_attr name f t (group1_or (Re.search (attr_pattern name f) t) default)
  \/ ((forall n v, ~ attr_at name f t n v)
      /\ group1_or (Re.search (attr_pattern name f) t) default = default).
Proof.
  destruct (Re.search (attr_pattern name f) t) as [m|] eqn:E.
  - left. apply search_attr_first in E as (v & -> & Hv). exact Hv.
  - right. split; [apply search_attr_none, E | reflexivity].
Qed.

End Attribute.

(** ** C3: width and height *)

Lemma not_dquote_dquote : not_dquote dquote = false.
Proof. reflexivity. Qed.

Lemma digit_dquote (unicode_decimal : N -> bool) : digit unicode_decimal dquote = false.
Proof. reflexivity. Qed.

Lemma first_attr_value (name : str) (f : N -> bool) (t v : str) :
  first_attr name f t v -> v <> [] /\ forallb f v = true.
Proof. intros (n & (post & _ & H) & _). exact H. Qed.

(** What [build_result] reads when it succeeds. *)
Lemma build_result_some (unicode_decimal : N -> bool) (cfg : config) (id : str)
    (data : json) (r : track_data) :
  build_result unicode_decimal cfg id data = Some r ->
  exists items html embed,
    data = JObject items
    /\ dict_lookup (py "html") items = Some (JString html)
    /\ Re.search re_src html = Some (Some embed)
    /\ r = {| title := dict_get items (py "title") (JString (py "Spotify Track"));
              thumbnail_url := dict_get items (py "thumbnail_url") JNull;
              original_url := spotify_url id;
              embed_url := embed;
              width := group1_or (Re.search (re_width unicode_decimal) html) (py "300");
              height := group1_or (Re.search (re_height unicode_decimal) html) (py "380");
              provider_name := dict_get items (py "provider_name") (JString (py "Spotify"));
              service_name := SERVICE_NAME cfg;
              your_twitter_handle := YOUR_TWITTER_HANDLE cfg;
              track_id := id |}.
Proof.
  unfold build_result.
  destruct (all_in required_keys data) as [[|]|]; try discriminate.
  destruct data as [| | | | |items]; try discriminate.
  cbn [subscript].
  destruct (dict_lookup (py "html") items) as [[| | |html| |]|] eqn:Hh; try discriminate.
  destruct (Re.search re_src html) as [[embed|]|] eqn:He; try discriminate.
  intros H. apply (inj Some) in H. exists items, html, embed. auto.
Qed.

(** C3, as the code has it.  In every record that the fetcher assembles,
    [width] is the value captured by the leftmost [width="N"] of the html
    fragment, or the string [300] when the fragment has none; [height] is
    the value of the leftmost [height="N"], or the string [380]; each
    default applies on its own.  Both fields are non-empty strings of
    decimal digits; the code does not check that they denote a positive
    number. *)
Theorem dimensions_of_result (unicode_decimal : N -> bool) (cfg : config)
    (id : str) (data : json) (r : track_data) :
  build_result unicode_decimal cfg id data = Some r ->
  exists html,
    subscript data (py "html") = Some (JString html)
    /\ (first_attr (py "width=") (digit unicode_decimal) html (width r)
        \/ ((forall n v, ~ attr_at (py "width=") (digit unicode_decimal) html n v)
            /\ width r = py "300"))
    /\ (first_attr (py "height=") (digit unicode_decimal) html (height r)
        \/ ((forall n v, ~ attr_at (py "height=") (digit unicode_decimal) html n v)
            /\ height r = py "380"))
    /\ width r <> [] /\ forallb (digit unicode_decimal) (width r) = true
    /\ height r <> [] /\ forallb (digit unicode_decimal) (height r) = true.
Proof.
  intros H. apply build_result_some in H as (items & html & embed & -> & Hh & _ & ->).
  exists html. cbn [subscript width height]. split; [exact Hh|].
  pose proof (group1_or_attr (py "width=") (digit unicode_decimal)
                (digit_dquote unicode_decimal) html (py "300")) as Hw.
  pose proof (group1_or_attr (py "height=") (digit unicode_decimal)
                (digit_dquote unicode_decimal) html (py "380")) as Hg.
  fold (re_width unicode_decimal) in Hw. fold (re_height unicode_decimal) in Hg.
  split; [exact Hw|]. split; [exact Hg|].
  assert (Hw' : group1_or (Re.search (re_width unicode_decimal) html) (py "300") <> []
                /\ forallb (digit unicode_decimal)
                     (group1_or (Re.search (re_width unicode_decimal) html) (py "300")) = true).
  { destruct Hw as [Hw | [_ ->]]; [eapply first_attr_value, Hw | split; [discriminate | reflexivity]]. }
  assert (Hg' : group1_or (Re.search (re_height unicode_decimal) html) (py "380") <> []
                /\ forallb (digit unicode_decimal)
                     (group1_or (Re.search (re_height unicode_decimal) html) (py "380")) = true).
  { destruct Hg as [Hg | [_ ->]]; [eapply first_attr_value, Hg | split; [discriminate | reflexivity]]. }
  tauto.
Qed.

Lemma dimensions_of_result_witness :
  exists html,
    subscript (oembed_body (JString (iframe (py "80") (py "380")))) (py "html")
    = Some (JString html)
    /\ (first_attr (py "width=") (digit no_unicode_decimal) html (width sample_data)
        \/ ((forall n v, ~ attr_at (py "width=") (digit no_unicode_decimal) html n v)
            /\ width sample_data = py "300"))
    /\ (first_attr (py "height=") (digit no_unicode_decimal) html (height sample_data)
        \/ ((forall n v, ~ attr_at (py "height=") (digit no_unicode_decimal) html n v)
            /\ height sample_data = py "380"))
    /\ width sample_data <> []
    /\ forallb (digit no_unicode_decimal) (width sample_data) = true
    /\ height sample_data <> []
    /\ forallb (digit no_unicode_decimal) (height sample_data) = true.
Proof.
  apply (dimensions_of_result no_unicode_decimal default_config
           (py "4cOdK2wGLETKBW3PvgPWqT")
           (oembed_body (JString (iframe (py "80") (py "380"))))
           sample_data).
  vm_compute. reflexivity.
Defined.

(** C3 as stated fails: for a fragment with [width="0"] and [height="0"] the
    record has the strings [0], which denote no positive integer. *)
Lemma zero_dimensions_counterexample :
  option_map width
    (build_result no_unicode_decimal default_config (py "4cOdK2wGLETKBW3PvgPWqT")
       (oembed_body (JString (iframe (py "0") (py "0")))))
  = Some (py "0")
  /\ option_map height
       (build_result no_unicode_decimal default_config (py "4cOdK2wGLETKBW3PvgPWqT")
          (oembed_body (JString (iframe (py "0") (py "0")))))
     = Some (py "0")
  /\ positive_numeral (py "0") = false.
Proof. vm_compute. auto. Qed.

(** ** C5: when a fetch fails *)

Lemma py_in_object (k : str) (items : list (str * json)) :
  py_in k (JObject items)
  = Some (match dict_lookup k items with Some _ => true | None => false end).
Proof.
  unfold py_in. f_equal. destruct (dict_lookup k items); reflexivity.
Qed.

Lemma all_in_object (items : list (str * json)) :
  all_in required_keys (JObject items) = Some true <->
  forall k, In k required_keys -> dict_lookup k items <> None.
Proof.
  unfold required_keys. cbn [all_in]. rewrite !py_in_object. split.
  - intros H k [<- | [<- | [<- | []]]];
      destruct (dict_lookup (py "title") items);
      destruct (dict_lookup (py "thumbnail_url") items);
      destruct (dict_lookup (py "html") items); done.
  - intros H.
    pose proof (H (py "title") ltac:(left; reflexivity)) as H1.
    pose proof (H (py "thumbnail_url") ltac:(right; left; reflexivity)) as H2.
    pose proof (H (py "html") ltac:(right; right; left; reflexivity)) as H3.
    destruct (dict_lookup (py "title") items); [|done].
    destruct (dict_lookup (py "thumbnail_url") items); [|done].
    destruct (dict_lookup (py "html") items); [|done].
    reflexivity.
Qed.

Lemma src_search_some (html : str) (m : Re.match_obj) :
  Re.search re_src html = Some m -> exists embed, m = Some embed.
Proof.
  intros H.
  apply (search_attr_first (py "src=") not_dquote not_dquote_dquote) in H
    as (v & -> & _).
  eauto.
Qed.

Lemma src_search_none (html : str) :
  Re.search re_src html = None <->
  forall n v, ~ attr_at (py "src=") not_dquote html n v.
Proof. apply (search_attr_none (py "src=") not_dquote not_dquote_dquote). Qed.

(** [build_result] gives nothing exactly for the unusable bodies. *)
Lemma build_result_none (unicode_decimal : N -> bool) (cfg : config) (id : str)
    (data : json) :
  build_result unicode_decimal cfg id data = None <-> body_failure data.
Proof.
  split.
  - intros H. destruct data as [| | | | |items];
      try (apply fail_not_object; discriminate).
    destruct (all_in required_keys (JObject items)) as [[|]|] eqn:Ea.
    + unfold build_result in H. rewrite Ea in H. cbn [subscript] in H.
      destruct (dict_lookup (py "html") items) as [v|] eqn:Hh.
      * destruct v as [| | |html| |];
          try (eapply fail_html_type; [exact Hh | discriminate]).
        destruct (Re.search re_src html) as [m|] eqn:Es.
        -- destruct (src_search_some html m Es) as [embed ->]. discriminate H.
        -- eapply fail_no_src; [exact Hh | apply src_search_none, Es].
      * apply (fail_missing_key items (py "html")); [|exact Hh].
        right; right; left; reflexivity.
    + assert (Hn : ~ forall k, In k required_keys -> dict_lookup k items <> None).
      { intros Hall. apply all_in_object in Hall. congruence. }
      destruct (dict_lookup (py "title") items) eqn:H1;
        [|apply (fail_missing_key items (py "title")); [left; reflexivity | exact H1]].
      destruct (dict_lookup (py "thumbnail_url") items) eqn:H2;
        [|apply (fail_missing_key items (py "thumbnail_url"));
          [right; left; reflexivity | exact H2]].
      destruct (dict_lookup (py "html") items) eqn:H3;
        [|apply (fail_missing_key items (py "html"));
          [right; right; left; reflexivity | exact H3]].
      destruct Hn. intros k [<- | [<- | [<- | []]]]; congruence.
    + cbn [all_in required_keys] in Ea. rewrite !py_in_object in Ea.
      repeat match type of Ea with
             | context [dict_lookup ?k items] => destruct (dict_lookup k items)
             end; discriminate Ea.
  - intros H. unfold build_result. destruct H as [data Hn|items k Hk Hl|items v Hv Hn|items html Hh Hn].
    + destruct (all_in required_keys data) as [[|]|]; try reflexivity.
      destruct data; try reflexivity. destruct (Hn items eq_refl).
    + assert (Ea : all_in required_keys (JObject items) <> Some true).
      { intros Ea. rewrite all_in_object in Ea. apply (Ea k Hk Hl). }
      destruct (all_in required_keys (JObject items)) as [[|]|]; done.
    + destruct (all_in required_keys (JObject items)) as [[|]|]; try reflexivity.
      cbn [subscript]. rewrite Hv. destruct v; try reflexivity. destruct (Hn s eq_refl).
    + destruct (all_in required_keys (JObject items)) as [[|]|]; try reflexivity.
      cbn [subscript]. rewrite Hh.
      apply src_search_none in Hn. rewrite Hn. reflexivity.
Qed.

Lemma cache_get_miss (now : Z) (key : str) (cache cache1 : cache_t) :
  cache_get now key cache = (None, cache1) -> cache1 !! key = None.
Proof.
  unfold cache_get. destruct (cache !! key) as [[d e]|] eqn:E.
  - destruct (now <? e); [discriminate|]. intros [= <-]. apply lookup_delete_eq.
  - intros [= <-]. exact E.
Qed.

Lemma raises_for_status_spec (status_code : Z) :
  raises_for_status status_code = true <-> 400 <= status_code < 600.
Proof. unfold raises_for_status. lia. Qed.

(** C5, as the code has it.  On a cache miss [get_spotify_data] issues one
    upstream request and returns nothing exactly when the call times out or
    raises another request error, the status is a 4xx or a 5xx (a status
    outside 2xx below 400 or from 600 on is not an error to it), the body is
    no JSON, the JSON is no object with the three required keys and a string
    for [html], the fragment has no [src="..."], or the new expiry instant
    is no datetime.  In each of these cases nothing is stored and the key
    stays absent; the cache is written on full success only, with the
    record returned and the instant [now + CACHE_DURATION]. *)
Theorem fetch_fails_iff (unicode_decimal : N -> bool) (cfg : config)
    (upstream : http_request -> http_outcome) (now : Z) (id : str)
    (cache cache1 : cache_t) :
  cache_get now (py "spotify:" ++ id) cache = (None, cache1) ->
  exists result cache',
    get_spotify_data unicode_decimal cfg upstream now id cache
    = (result, cache', [oembed_request cfg id])
    /\ (result = None <->
        upstream_failure (upstream (oembed_request cfg id))
        \/ datetime_add now (CACHE_DURATION cfg) = None)
    /\ (result = None ->
        cache' = cache1 /\ cache' !! (py "spotify:" ++ id) = None)
    /\ (forall r, result = Some r ->
        cache' = <[py "spotify:" ++ id := (r, now + CACHE_DURATION cfg)]> cache1).
Proof.
  intros Hmiss. pose proof (cache_get_miss _ _ _ _ Hmiss) as Habs.
  unfold get_spotify_data. rewrite Hmiss.
  destruct (upstream (oembed_request cfg id)) as [| |status body] eqn:Eu.
  - exists None, cache1. repeat split; auto using upstream_failure; discriminate.
  - exists None, cache1. repeat split; auto using upstream_failure; discriminate.
  - destruct (raises_for_status status) eqn:Es.
    { exists None, cache1. apply raises_for_status_spec in Es.
      repeat split; auto using upstream_failure; discriminate. }
    assert (Hst : ~ 400 <= status < 600)
      by (rewrite <- raises_for_status_spec; congruence).
    destruct body as [data|].
    2:{ exists None, cache1. repeat split; auto using upstream_failure; discriminate. }
    destruct (build_result unicode_decimal cfg id data) as [r|] eqn:Eb.
    2:{ exists None, cache1. apply build_result_none in Eb.
        repeat split; auto using upstream_failure; discriminate. }
    assert (Hok : ~ upstream_failure (HttpResponse status (Some data))).
    { intros Hf. inversion Hf; subst; [contradiction|].
      match goal with H : body_failure _ |- _ =>
        apply (build_result_none unicode_decimal cfg id) in H end.
      congruence. }
    unfold cache_put.
    destruct (datetime_add now (CACHE_DURATION cfg)) as [expiry|] eqn:Ed.
    + exists (Some r), (<[py "spotify:" ++ id := (r, expiry)]> cache1).
      assert (expiry = now + CACHE_DURATION cfg) as ->.
      { unfold datetime_add in Ed. destruct (_ && _); congruence. }
      repeat split; try discriminate.
      * intros [Hf | Hd]; [contradiction | discriminate].
      * intros r' [= <-]. reflexivity.
    + exists None, cache1. repeat split; auto; discriminate.
Qed.

Lemma fetch_fails_iff_witness :
  exists result cache',
    get_spotify_data no_unicode_decimal default_config
      (fun _ => HttpResponse 503 None) new_year_2026
      (py "4cOdK2wGLETKBW3PvgPWqT") ∅
    = (result, cache', [oembed_request default_config (py "4cOdK2wGLETKBW3PvgPWqT")])
    /\ (result = None <->
        upstream_failure (HttpResponse 503 None)
        \/ datetime_add new_year_2026 (CACHE_DURATION default_config) = None)
    /\ (result = None ->
        cache' = ∅ /\ cache' !! (py "spotify:" ++ py "4cOdK2wGLETKBW3PvgPWqT") = None)
    /\ (forall r, result = Some r ->
        cache' = <[py "spotify:" ++ py "4cOdK2wGLETKBW3PvgPWqT"
                   := (r, new_year_2026 + CACHE_DURATION default_config)]> ∅).
Proof.
  apply (fetch_fails_iff no_unicode_decimal default_config
           (fun _ => HttpResponse 503 None) new_year_2026
           (py "4cOdK2wGLETKBW3PvgPWqT") ∅ ∅).
  reflexivity.
Defined.

(** C5 as stated fails: the status 300 is not a 2xx, and with a complete body
    the fetch succeeds and fills the cache. *)
Lemma status_300_counterexample :
  get_spotify_data no_unicode_decimal default_config
    (fun _ => HttpResponse 300 (Some (oembed_body (JString (iframe (py "80") (py "380"))))))
    new_year_2026 (py "4cOdK2wGLETKBW3PvgPWqT") ∅
  = (Some sample_data,
     <[py "spotify:4cOdK2wGLETKBW3PvgPWqT"
       := (sample_data, new_year_2026 + 86400000000)]> ∅,
     [oembed_request default_config (py "4cOdK2wGLETKBW3PvgPWqT")]).
Proof. vm_compute. reflexivity. Qed.

(** The other side of C5: a body with the three keys whose [html] is a
    number, a well-formed JSON body that is a list of the three key names,
    and an expiry instant past the year 9999 each make the fetch fail. *)
Example fetch_fails_html_number :
  get_spotify_data no_unicode_decimal default_config
    (fun _ => HttpResponse 200 (Some (oembed_body (JNumber (py "5")))))
    new_year_2026 (py "4cOdK2wGLETKBW3PvgPWqT") ∅
  = (None, ∅, [oembed_request default_config (py "4cOdK2wGLETKBW3PvgPWqT")]).
Proof. vm_compute. reflexivity. Qed.

Example fetch_fails_list_body :
  get_spotify_data no_unicode_decimal default_config
    (fun _ => HttpResponse 200
                (Some (JArray [JString (py "title"); JString (py "thumbnail_url");
                               JString (py "html")])))
    new_year_2026 (py "4cOdK2wGLETKBW3PvgPWqT") ∅
  = (None, ∅, [oembed_request default_config (py "4cOdK2wGLETKBW3PvgPWqT")]).
Proof. vm_compute. reflexivity. Qed.

Example fetch_fails_expiry_overflow :
  get_spotify_data no_unicode_decimal
    {| CACHE_DURATION_SECONDS := 1000000000000;
       SERVICE_NAME := py "Spotify Embed Fix";
       YOUR_TWITTER_HANDLE := [] |}
    (fun _ => HttpResponse 200 (Some (oembed_body (JString (iframe (py "80") (py "380"))))))
    new_year_2026 (py "4cOdK2wGLETKBW3PvgPWqT") ∅
  = (None, ∅,
     [oembed_request
        {| CACHE_DURATION_SECONDS := 1000000000000;
           SERVICE_NAME := py "Spotify Embed Fix";
           YOUR_TWITTER_HANDLE := [] |}
        (py "4cOdK2wGLETKBW3PvgPWqT")]).
Proof. vm_compute. reflexivity. Qed.

(** ** C7: the redirect *)

Lemma extract_nil : extract_spotify_track_id [] = None.
Proof. reflexivity. Qed.

(** C7.  When an identifier is extracted from the input of the request and
    the User-Agent is no known bot, or is one and [get_spotify_data] returns
    nothing, the response is the redirect with code 307 to
    [https://open.spotify.com/track/<id>]. *)
Theorem redirect_to_spotify (unicode_decimal : N -> bool) (cfg : config)
    (upstream : http_request -> http_outcome) (now : Z) (req : request)
    (cache : cache_t) (id : str) :
  extract_spotify_track_id (input_value_of req) = Some id ->
  is_bot (default [] (user_agent_header req)) = false
  \/ (get_spotify_data unicode_decimal cfg upstream now id cache).1.1 = None ->
  (handle_request unicode_decimal cfg upstream now req cache).1.1
  = Redirect (py "https://open.spotify.com/track/" ++ id) 307
  /\ response_status (handle_request unicode_decimal cfg upstream now req cache).1.1
     = 307.
Proof.
  intros He Hcase.
  assert (E : (handle_request unicode_decimal cfg upstream now req cache).1.1
              = Redirect (py "https://open.spotify.com/track/" ++ id) 307).
  { unfold handle_request.
    destruct (input_value_of req) as [|c s] eqn:Ei; [discriminate He|].
    rewrite He.
    destruct id as [|i id].
    { apply extract_is_track_id in He as [Hl _]. discriminate Hl. }
    destruct (is_bot (default [] (user_agent_header req))); [|reflexivity].
    destruct Hcase as [Hb | Hg]; [discriminate Hb|].
    destruct (get_spotify_data unicode_decimal cfg upstream now (i :: id) cache)
      as [[[d|] c'] sent]; [discriminate Hg | reflexivity]. }
  rewrite E. split; reflexivity.
Qed.

Lemma redirect_to_spotify_witness :
  (handle_request no_unicode_decimal default_config (fun _ => Timeout) new_year_2026
     {| path := py "4cOdK2wGLETKBW3PvgPWqT"; args := [];
        user_agent_header := Some (py "Mozilla/5.0 (compatible; Discordbot/2.0)") |}
     ∅).1.1
  = Redirect (py "https://open.spotify.com/track/" ++ py "4cOdK2wGLETKBW3PvgPWqT") 307
  /\ response_status
       (handle_request no_unicode_decimal default_config (fun _ => Timeout) new_year_2026
          {| path := py "4cOdK2wGLETKBW3PvgPWqT"; args := [];
             user_agent_header := Some (py "Mozilla/5.0 (compatible; Discordbot/2.0)") |}
          ∅).1.1
     = 307.
Proof.
  apply (redirect_to_spotify no_unicode_decimal default_config (fun _ => Timeout)
           new_year_2026 _ ∅ (py "4cOdK2wGLETKBW3PvgPWqT")).
  - reflexivity.
  - right. reflexivity.
Defined.

(** ** C10: the query parameter and the path *)




(** What [str.strip()] returns. *)











(** ** The scenarios of the specification *)

Example extract_url :
  extract_spotify_track_id (py "https://open.spotify.com/track/4cOdK2wGLETKBW3PvgPWqT?si=abc")
  = Some (py "4cOdK2wGLETKBW3PvgPWqT").
Proof. vm_compute. reflexivity. Qed.

Example extract_uri :
  extract_spotify_track_id (py "spotify:track:4cOdK2wGLETKBW3PvgPWqT")
  = Some (py "4cOdK2wGLETKBW3PvgPWqT").
Proof. vm_compute. reflexivity. Qed.

Example extract_empty : extract_spotify_track_id [] = None.
Proof. reflexivity. Qed.

Example extract_21_characters :
  extract_spotify_track_id (py "4cOdK2wGLETKBW3PvgPWq") = None.
Proof. vm_compute. reflexivity. Qed.

Example extract_23_characters :
  extract_spotify_track_id (py "4cOdK2wGLETKBW3PvgPWqTx") = None.
Proof. vm_compute. reflexivity. Qed.

Example extract_malformed :
  extract_spotify_track_id (py "%zz%4") = None.
Proof. vm_compute. reflexivity. Qed.

(** A link followed by more alphanumeric characters: the first 22. *)
Example extract_long_tail :
  extract_spotify_track_id (py "spotify.com/track/4cOdK2wGLETKBW3PvgPWqTxyz")
  = Some (py "4cOdK2wGLETKBW3PvgPWqT").
Proof. vm_compute. reflexivity. Qed.

(** Bytes that are no UTF-8 become U+FFFD; the ASCII around them stays. *)
Example utf8_decode_replace :
  utf8_decode [226; 130; 172; 65; 226; 130; 65; 255; 240; 159; 152]%N
  = [8364; 65; 65533; 65; 65533; 65533]%N.
Proof. vm_compute. reflexivity. Qed.

Example unquote_keeps_malformed :
  unquote (py "a%zzb%2Fc%") = py "a%zzb/c%".
Proof. vm_compute. reflexivity. Qed.

(** A bot, a valid identifier and a valid oEmbed answer: the embed page. *)
Example scenario_bot_embed :
  handle_request no_unicode_decimal default_config
    (fun _ => HttpResponse 200 (Some (oembed_body (JString (iframe (py "80") (py "380"))))))
    new_year_2026
    {| path := py "4cOdK2wGLETKBW3PvgPWqT"; args := [];
       user_agent_header := Some (py "Discordbot/2.0") |}
    ∅
  = (EmbedPage sample_data,
     <[py "spotify:4cOdK2wGLETKBW3PvgPWqT"
       := (sample_data, new_year_2026 + 86400000000)]> ∅,
     [oembed_request default_config (py "4cOdK2wGLETKBW3PvgPWqT")]).
Proof. vm_compute. reflexivity. Qed.

(** The same input from a browser: the redirect, and no upstream call. *)
Example scenario_browser_redirect :
  handle_request no_unicode_decimal default_config
    (fun _ => HttpResponse 200 (Some (oembed_body (JString (iframe (py "80") (py "380"))))))
    new_year_2026
    {| path := py "4cOdK2wGLETKBW3PvgPWqT"; args := [];
       user_agent_header := Some (py "Mozilla/5.0") |}
    ∅
  = (Redirect (py "https://open.spotify.com/track/4cOdK2wGLETKBW3PvgPWqT") 307, ∅, []).
Proof. vm_compute. reflexivity. Qed.

(** An input with no identifier: the error page with the input in it. *)
Example scenario_not_a_track :
  handle_request no_unicode_decimal default_config (fun _ => Timeout) new_year_2026
    {| path := py "not-a-track"; args := []; user_agent_header := None |} ∅
  = (ErrorPage
       (py "Could not find a valid Spotify Track ID in 'not-a-track'. Please provide a full Spotify track URL or just the 22-character ID."),
     ∅, []).
Proof. vm_compute. reflexivity. Qed.

(** No input: the landing page. *)
Example scenario_landing :
  handle_request no_unicode_decimal default_config (fun _ => Timeout) new_year_2026
    {| path := py "ignored"; args := [(py "url", py "  ")]; user_agent_header := None |} ∅
  = (LandingPage (py "Spotify Embed Fix"), ∅, []).
Proof. vm_compute. reflexivity. Qed.

(** * Further properties of the code *)

(** ** The extractor *)

(** X1.  Whatever [extract_spotify_track_id] returns is a string of 22
    alphanumeric characters, and the extractor maps it to itself. *)
Theorem extract_result_is_fixed (s id : str) :
  extract_spotify_track_id s = Some id ->
  is_track_id id /\ extract_spotify_track_id id = Some id.
Proof.
  intros H. pose proof (extract_is_track_id s id H) as Hid.
  split; [exact Hid | apply extract_of_track_id, Hid].
Qed.

Lemma extract_result_is_fixed_witness :
  is_track_id (py "4cOdK2wGLETKBW3PvgPWqT")
  /\ extract_spotify_track_id (py "4cOdK2wGLETKBW3PvgPWqT")
     = Some (py "4cOdK2wGLETKBW3PvgPWqT").
Proof.
  apply (extract_result_is_fixed
           (py "https://open.spotify.com/track/4cOdK2wGLETKBW3PvgPWqT?si=abc")).
  vm_compute. reflexivity.
Defined.

(** [unquote] leaves an ASCII word without [%] at the start of the input
    where it is. *)
Lemma unquote_ascii_prefix (w post : str) :
  forallb is_ascii w = true -> existsb (N.eqb percent) w = false ->
  exists y, unquote (w ++ post) = w ++ y.
Proof.
  intros Hw Hp. unfold unquote.
  destruct (existsb (N.eqb percent) (w ++ post)); [|eauto].
  rewrite (unquote_parts_ascii w post [] Hw). simpl app.
  destruct (unquote_parts_tail post w) as (r2 & y & E).
  rewrite E. unfold unquote_part.
  rewrite (unquote_to_bytes_encoded w w r2 (pct_encodes_refl w Hp)).
  rewrite (utf8_decode_ascii w _ Hw), <- app_assoc. eauto.
Qed.

Lemma extract_first_track (s id : str) :
  (22 < length s)%nat -> first_track (unquote s) id ->
  extract_spotify_track_id s = Some id.
Proof.
  intros Hl Hf. apply extract_spec. right. split; [|exact Hf].
  intros [Hl' _]. lia.
Qed.

(** X2.  An input that starts with [spotify.com/track/] or [spotify:track:]
    and 22 alphanumeric characters gives those characters, whatever
    follows them. *)
Theorem extract_leading_track (p id tail : str) :
  track_prefix p -> is_track_id id ->
  extract_spotify_track_id (p ++ id ++ tail) = Some id.
Proof.
  intros Hp Hid.
  destruct (unquote_ascii_prefix (p ++ id) tail) as [y E].
  - rewrite forallb_app, (track_prefix_ascii p Hp), (is_track_id_ascii id Hid). reflexivity.
  - apply track_occurrence_no_percent; assumption.
  - rewrite <- !app_assoc in E. apply extract_first_track.
    + rewrite !length_app. destruct Hid as [-> _].
      assert (0 < length p)%nat by (destruct Hp as [-> | ->]; simpl; lia).
      lia.
    + rewrite E. exists 0%nat. split; [|intros m id' Hm; lia].
      exists p, y. rewrite drop_0. auto.
Qed.

Lemma extract_leading_track_witness :
  extract_spotify_track_id
    (py "spotify:track:" ++ py "4cOdK2wGLETKBW3PvgPWqT" ++ py "%zz&x=spotify:track:7ouMYWpwJ422jRcDASZB7P")
  = Some (py "4cOdK2wGLETKBW3PvgPWqT").
Proof.
  apply (extract_leading_track (py "spotify:track:") (py "4cOdK2wGLETKBW3PvgPWqT")).
  - right. reflexivity.
  - split; reflexivity.
Defined.

(** X3.  The address the service redirects to leads back to the identifier:
    from [https://open.spotify.com/track/<id>], with whatever query string
    or other text after it, the extractor returns [id]. *)
Theorem extract_spotify_url (id tail : str) :
  is_track_id id ->
  extract_spotify_track_id (spotify_url id ++ tail) = Some id.
Proof.
  intros Hid. unfold spotify_url.
  destruct (unquote_ascii_prefix (py "https://open.spotify.com/track/" ++ id) tail)
    as [y E].
  - rewrite forallb_app, (is_track_id_ascii id Hid). reflexivity.
  - rewrite existsb_app. destruct Hid as [_ Hw].
    rewrite (alnum_not_percent id Hw). reflexivity.
  - apply extract_first_track.
    + rewrite !length_app. destruct Hid as [-> _]. simpl. lia.
    + rewrite E, <- app_assoc. exists 13%nat. split.
      * exists (py "spotify.com/track/"), y. split; [left; reflexivity|].
        split; [reflexivity | exact Hid].
      * intros m id' Hm. rewrite <- track_at_drop.
        apply match_here_track_url_none.
        do 13 (destruct m as [|m]; [vm_compute; reflexivity|]). lia.
Qed.

Lemma extract_spotify_url_witness :
  extract_spotify_track_id
    (spotify_url (py "4cOdK2wGLETKBW3PvgPWqT") ++ py "?si=a%2Fb&utm=1")
  = Some (py "4cOdK2wGLETKBW3PvgPWqT").
Proof.
  apply (extract_spotify_url (py "4cOdK2wGLETKBW3PvgPWqT")).
  split; reflexivity.
Defined.

Lemma unquote_to_bytes_length (n : nat) (r : str) :
  (length r <= n)%nat -> (length (unquote_to_bytes r) <= length r)%nat.
Proof.
  revert r. induction n as [|n IH]; intros [|c r] Hn; simpl in Hn; try (simpl; lia).
  destruct (unquote_to_bytes_step c r) as [E | (h1 & h2 & r' & b & _ & -> & _ & _ & E)];
    rewrite E; cbn [length].
  - specialize (IH r). lia.
  - simpl in Hn. specialize (IH r'). lia.
Qed.

Lemma utf8_decode_length (n : nat) (bs : list N) :
  (length bs <= n)%nat -> (length (utf8_decode bs) <= length bs)%nat.
Proof.
  revert bs. induction n as [|n IH]; intros [|b r] Hn; simpl in Hn; try (simpl; lia).
  destruct (utf8_step b r) as (x & k & E & _). rewrite E. cbn [length].
  specialize (IH (drop k r)). rewrite length_drop in IH. lia.
Qed.

Lemma unquote_part_length (run : str) :
  (length (unquote_part run) <= length run)%nat.
Proof.
  unfold unquote_part.
  pose proof (utf8_decode_length _ (unquote_to_bytes run) (Nat.le_refl _)).
  pose proof (unquote_to_bytes_length _ run (Nat.le_refl _)).
  lia.
Qed.

Lemma unquote_parts_length (s run : str) :
  (length (unquote_parts s run) <= length run + length s)%nat.
Proof.
  revert run. induction s as [|c s IH]; intros run; simpl.
  - pose proof (unquote_part_length run). lia.
  - destruct (is_ascii c).
    + specialize (IH (run ++ [c])). rewrite length_app in IH. simpl in IH. lia.
    + rewrite length_app. cbn [length].
      pose proof (unquote_part_length run). specialize (IH []). simpl in IH. lia.
Qed.

(** Decoding never makes the input longer. *)
Lemma unquote_length (s : str) : (length (unquote s) <= length s)%nat.
Proof.
  unfold unquote. destruct (existsb _ s); [|lia].
  pose proof (unquote_parts_length s []). simpl in *. lia.
Qed.

Lemma track_at_min_length (t : str) (n : nat) (id : str) :
  track_at t n id -> (36 <= length t)%nat.
Proof.
  intros (p & post & Hp & E & Hl & _).
  apply (f_equal length) in E. rewrite length_drop, !length_app, Hl in E.
  assert (14 <= length p)%nat by (destruct Hp as [-> | ->]; simpl; lia).
  lia.
Qed.

(** X4.  An input of fewer than 36 characters gives [None], unless it has
    exactly 22 characters: the shortest link has 14 characters before the
    22 of the identifier, and decoding adds none. *)
Theorem extract_short_input (s : str) :
  (length s < 36)%nat -> length s <> 22%nat ->
  extract_spotify_track_id s = None.
Proof.
  intros Hl Hne. apply extract_none. split.
  - intros [H _]. contradiction.
  - intros n id Hat. apply track_at_min_length in Hat.
    pose proof (unquote_length s). lia.
Qed.

Lemma extract_short_input_witness :
  extract_spotify_track_id (py "spotify:track:4cOdK2wGLETKBW3PvgPWq") = None.
Proof.
  apply (extract_short_input (py "spotify:track:4cOdK2wGLETKBW3PvgPWq")).
  - simpl. lia.
  - simpl. lia.
Defined.

(** ** Bot detection *)

Lemma str_in_spec (p s : str) :
  str_in p s = true <-> exists pre post, s = pre ++ p ++ post.
Proof.
  induction s as [|c s IH]; simpl.
  - destruct (strip_prefix p []) as [r|] eqn:E.
    + apply strip_prefix_inv in E. split; [|reflexivity].
      intros _. exists [], r. exact E.
    + split; [discriminate|]. intros (pre & post & H).
      destruct pre; [|discriminate]. simpl in H.
      rewrite H, strip_prefix_app in E. discriminate.
  - destruct (strip_prefix p (c :: s)) as [r|] eqn:E.
    + apply strip_prefix_inv in E. split; [|reflexivity].
      intros _. exists [], r. exact E.
    + rewrite IH. split.
      * intros (pre & post & ->). exists (c :: pre), post. reflexivity.
      * intros (pre & post & H). destruct pre as [|c' pre].
        -- simpl in H. rewrite H, strip_prefix_app in E. discriminate.
        -- injection H as -> ->. eauto.
Qed.

(** X5.  A User-Agent is a bot's exactly when one of the five names of
    [USER_AGENT_BOTS] stands in it, letter for letter, at any place. *)
Theorem is_bot_iff (user_agent : str) :
  is_bot user_agent = true <->
  exists bot_ua pre post,
    In bot_ua USER_AGENT_BOTS /\ user_agent = pre ++ bot_ua ++ post.
Proof.
  unfold is_bot. rewrite existsb_exists. split.
  - intros (b & Hb & H). apply str_in_spec in H as (pre & post & ->). eauto.
  - intros (b & pre & post & Hb & ->). exists b. split; [exact Hb|].
    apply str_in_spec. eauto.
Qed.

(** ** The router *)

Lemma lstrip_nil_iff (s : str) : lstrip s = [] <-> forallb is_space s = true.
Proof.
  induction s as [|c s IH]; simpl; [tauto|].
  destruct (is_space c); simpl; [exact IH|]. split; discriminate.
Qed.

Lemma lstrip_head (s r : str) (c : N) : lstrip s = c :: r -> is_space c = false.
Proof.
  induction s as [|a s IH]; simpl; [discriminate|].
  destruct (is_space a) eqn:Ha; [exact IH|]. intros [= -> _]. exact Ha.
Qed.

Lemma forallb_rev (f : N -> bool) (l : str) : forallb f (rev l) = forallb f l.
Proof.
  induction l as [|c l IH]; [reflexivity|].
  simpl. rewrite forallb_app, IH. simpl. rewrite andb_true_r. apply andb_comm.
Qed.

Lemma strip_nil_iff (s : str) : strip s = [] <-> forallb is_space s = true.
Proof.
  unfold strip. rewrite <- lstrip_nil_iff. split.
  - intros H. apply (f_equal (@rev N)) in H. rewrite rev_involutive in H. simpl in H.
    apply lstrip_nil_iff in H. rewrite forallb_rev in H.
    destruct (lstrip s) as [|c r] eqn:E; [reflexivity|].
    apply lstrip_head in E. simpl in H. rewrite E in H. discriminate.
  - intros ->. reflexivity.
Qed.

(** X6.  The landing page is served, with the cache untouched and no
    upstream request, exactly when the input (the first [url] parameter, or
    the path when there is none) is empty or all whitespace. *)
Theorem landing_iff_blank (unicode_decimal : N -> bool) (cfg : config)
    (upstream : http_request -> http_outcome) (now : Z) (req : request)
    (cache : cache_t) :
  handle_request unicode_decimal cfg upstream now req cache
  = (LandingPage (SERVICE_NAME cfg), cache, [])
  <-> forallb is_space (args_get (py "url") (path req) (args req)) = true.
Proof.
  rewrite <- strip_nil_iff. fold (input_value_of req).
  unfold handle_request. destruct (input_value_of req) as [|c s] eqn:Ei.
  - tauto.
  - split; [|discriminate].
    destruct (extract_spotify_track_id (c :: s)) as [[|i id]|]; try discriminate.
    destruct (is_bot _); [|discriminate].
    destruct (get_spotify_data _ _ _ _ _ _) as [[[d|] c'] sent]; discriminate.
Qed.

(** X7.  An input that is not blank and gives no identifier is answered
    with the error page, status 400; the message holds the input as it was
    read, the cache is untouched and no upstream request is made. *)
Theorem error_page_for_unparseable (unicode_decimal : N -> bool) (cfg : config)
    (upstream : http_request -> http_outcome) (now : Z) (req : request)
    (cache : cache_t) :
  input_value_of req <> [] ->
  extract_spotify_track_id (input_value_of req) = None ->
  handle_request unicode_decimal cfg upstream now req cache
  = (ErrorPage (error_message (input_value_of req)), cache, [])
  /\ response_status (ErrorPage (error_message (input_value_of req))) = 400
  /\ str_in (input_value_of req) (error_message (input_value_of req)) = true.
Proof.
  intros Hne He. split; [|split].
  - unfold handle_request. rewrite He.
    destruct (input_value_of req); [contradiction | reflexivity].
  - reflexivity.
  - apply str_in_spec. unfold error_message. eauto.
Qed.

Lemma error_page_for_unparseable_witness :
  handle_request no_unicode_decimal default_config (fun _ => Timeout) new_year_2026
    {| path := py "not-a-track"; args := []; user_agent_header := Some (py "Discordbot") |} ∅
  = (ErrorPage (error_message (py "not-a-track")), ∅, [])
  /\ response_status (ErrorPage (error_message (py "not-a-track"))) = 400
  /\ str_in (py "not-a-track") (error_message (py "not-a-track")) = true.
Proof.
  apply (error_page_for_unparseable no_unicode_decimal default_config (fun _ => Timeout)
           new_year_2026
           {| path := py "not-a-track"; args := [];
              user_agent_header := Some (py "Discordbot") |} ∅).
  - discriminate.
  - reflexivity.
Defined.

(** X8.  A request whose User-Agent names no bot, or has no User-Agent
    header at all, leaves the cache as it is and causes no upstream
    request, whatever its input. *)
Theorem browser_leaves_cache (unicode_decimal : N -> bool) (cfg : config)
    (upstream : http_request -> http_outcome) (now : Z) (req : request)
    (cache : cache_t) :
  is_bot (default [] (user_agent_header req)) = false ->
  (handle_request unicode_decimal cfg upstream now req cache).1.2 = cache
  /\ (handle_request unicode_decimal cfg upstream now req cache).2 = [].
Proof.
  intros Hb. unfold handle_request. rewrite Hb.
  destruct (input_value_of req); [split; reflexivity|].
  destruct (extract_spotify_track_id _) as [[|i id]|]; split; reflexivity.
Qed.

Lemma browser_leaves_cache_witness :
  (handle_request no_unicode_decimal default_config (fun _ => RequestError) new_year_2026
     {| path := py "spotify:track:4cOdK2wGLETKBW3PvgPWqT"; args := [];
        user_agent_header := None |} ∅).1.2 = ∅
  /\ (handle_request no_unicode_decimal default_config (fun _ => RequestError) new_year_2026
        {| path := py "spotify:track:4cOdK2wGLETKBW3PvgPWqT"; args := [];
           user_agent_header := None |} ∅).2 = [].
Proof.
  apply (browser_leaves_cache no_unicode_decimal default_config (fun _ => RequestError)
           new_year_2026
           {| path := py "spotify:track:4cOdK2wGLETKBW3PvgPWqT"; args := [];
              user_agent_header := None |} ∅).
  reflexivity.
Defined.


(** ** The fetcher and its cache *)

(** A miss leaves the cache without the key, and otherwise as it was. *)
Lemma cache_get_none (now : Z) (key : str) (cache cache1 : cache_t) :
  cache_get now key cache = (None, cache1) ->
  cache1 = delete key cache
  /\ (cache !! key = None
      \/ exists d e, cache !! key = Some (d, e) /\ e <= now).
Proof.
  unfold cache_get. destruct (cache !! key) as [[d e]|] eqn:E.
  - destruct (Z.ltb_spec now e); [discriminate|].
    intros [= <-]. split; [reflexivity|]. right. eauto.
  - intros [= <-]. split; [|left; reflexivity].
    symmetry. apply delete_id, E.
Qed.

Lemma cache_get_some (now : Z) (key : str) (cache cache1 : cache_t) (d : track_data) :
  cache_get now key cache = (Some d, cache1) ->
  cache1 = cache /\ exists e, cache !! key = Some (d, e) /\ now < e.
Proof.
  unfold cache_get. destruct (cache !! key) as [[d' e]|] eqn:E; [|discriminate].
  destruct (Z.ltb_spec now e); [|discriminate].
  intros [= <- <-]. eauto.
Qed.

Lemma datetime_add_some (t d e : Z) : datetime_add t d = Some e -> e = t + d.
Proof. unfold datetime_add. destruct (_ && _); congruence. Qed.

(** The three ways a call of [get_spotify_data] goes. *)
Lemma get_spotify_data_cases (unicode_decimal : N -> bool) (cfg : config)
    (upstream : http_request -> http_outcome) (now : Z) (id : str)
    (cache : cache_t) :
  (exists d e,
     cache !! (py "spotify:" ++ id) = Some (d, e) /\ now < e
     /\ get_spotify_data unicode_decimal cfg upstream now id cache
        = (Some d, cache, []))
  \/ ((cache !! (py "spotify:" ++ id) = None
       \/ exists d e, cache !! (py "spotify:" ++ id) = Some (d, e) /\ e <= now)
      /\ (get_spotify_data unicode_decimal cfg upstream now id cache
          = (None, delete (py "spotify:" ++ id) cache, [oembed_request cfg id])
          \/ exists r status_code data,
               upstream (oembed_request cfg id) = HttpResponse status_code (Some data)
               /\ raises_for_status status_code = false
               /\ build_result unicode_decimal cfg id data = Some r
               /\ get_spotify_data unicode_decimal cfg upstream now id cache
                  = (Some r,
                     <[py "spotify:" ++ id := (r, now + CACHE_DURATION cfg)]> cache,
                     [oembed_request cfg id]))).
Proof.
  unfold get_spotify_data.
  destruct (cache_get now (py "spotify:" ++ id) cache) as [[d|] c1] eqn:Eg.
  - left. apply cache_get_some in Eg as (-> & e & He & Hlt). eauto.
  - right. apply cache_get_none in Eg as (-> & Hk). split; [exact Hk|].
    destruct (upstream (oembed_request cfg id)) as [| |status body]; auto.
    destruct (raises_for_status status) eqn:Es; auto.
    destruct body as [data|]; auto.
    destruct (build_result unicode_decimal cfg id data) as [r|] eqn:Eb; auto.
    unfold cache_put.
    destruct (datetime_add now (CACHE_DURATION cfg)) as [e|] eqn:Ed; auto.
    apply datetime_add_some in Ed as ->. rewrite insert_delete_eq.
    right. exists r, status, data. auto.
Qed.

Lemma spotify_key_ne (id : str) (k : str) :
  k <> py "spotify:" ++ id -> py "spotify:" ++ id <> k.
Proof. auto. Qed.

(** X10.  A call of [get_spotify_data] reads and writes one key only, the
    identifier behind [spotify:]; every other entry of the cache is as
    before.  It sends the upstream one request or none, never more. *)
Theorem fetch_frame (unicode_decimal : N -> bool) (cfg : config)
    (upstream : http_request -> http_outcome) (now : Z) (id : str)
    (cache : cache_t) :
  (forall k, k <> py "spotify:" ++ id ->
     (get_spotify_data unicode_decimal cfg upstream now id cache).1.2 !! k
     = cache !! k)
  /\ ((get_spotify_data unicode_decimal cfg upstream now id cache).2 = []
      \/ (get_spotify_data unicode_decimal cfg upstream now id cache).2
         = [oembed_request cfg id]).
Proof.
  destruct (get_spotify_data_cases unicode_decimal cfg upstream now id cache)
    as [(d & e & _ & _ & E) | [_ [E | (r & st & data & _ & _ & _ & E)]]];
    rewrite E; cbn [fst snd]; (split; [|auto]); intros k Hk.
  - reflexivity.
  - apply lookup_delete_ne, spotify_key_ne, Hk.
  - apply lookup_insert_ne, spotify_key_ne, Hk.
Qed.

(** X11.  An entry that has expired is never served: the call goes
    upstream, and either returns nothing and leaves the key absent, or
    returns the record built from the new answer and stores it with the
    expiry [now + CACHE_DURATION]. *)
Theorem expired_entry_not_served (unicode_decimal : N -> bool) (cfg : config)
    (upstream : http_request -> http_outcome) (now : Z) (id : str)
    (cache : cache_t) (d : track_data) (e : Z) :
  cache !! (py "spotify:" ++ id) = Some (d, e) -> e <= now ->
  get_spotify_data unicode_decimal cfg upstream now id cache
  = (None, delete (py "spotify:" ++ id) cache, [oembed_request cfg id])
  \/ exists r status_code data,
       upstream (oembed_request cfg id) = HttpResponse status_code (Some data)
       /\ build_result unicode_decimal cfg id data = Some r
       /\ get_spotify_data unicode_decimal cfg upstream now id cache
          = (Some r,
             <[py "spotify:" ++ id := (r, now + CACHE_DURATION cfg)]> cache,
             [oembed_request cfg id]).
Proof.
  intros Hc He.
  destruct (get_spotify_data_cases unicode_decimal cfg upstream now id cache)
    as [(d' & e' & Hc' & Hlt & _) | [_ [E | (r & st & data & Hu & _ & Hb & E)]]].
  - rewrite Hc in Hc'. injection Hc' as <- <-. lia.
  - left. exact E.
  - right. exists r, st, data. auto.
Qed.

Lemma expired_entry_not_served_witness :
  get_spotify_data no_unicode_decimal default_config (fun _ => Timeout) 100
    (py "4cOdK2wGLETKBW3PvgPWqT")
    (<[py "spotify:" ++ py "4cOdK2wGLETKBW3PvgPWqT" := (sample_data, 100)]> ∅)
  = (None,
     delete (py "spotify:" ++ py "4cOdK2wGLETKBW3PvgPWqT")
       (<[py "spotify:" ++ py "4cOdK2wGLETKBW3PvgPWqT" := (sample_data, 100)]> ∅),
     [oembed_request default_config (py "4cOdK2wGLETKBW3PvgPWqT")])
  \/ exists r status_code data,
       (fun _ : http_request => Timeout)
         (oembed_request default_config (py "4cOdK2wGLETKBW3PvgPWqT"))
       = HttpResponse status_code (Some data)
       /\ build_result no_unicode_decimal default_config
            (py "4cOdK2wGLETKBW3PvgPWqT") data = Some r
       /\ get_spotify_data no_unicode_decimal default_config (fun _ => Timeout) 100
            (py "4cOdK2wGLETKBW3PvgPWqT")
            (<[py "spotify:" ++ py "4cOdK2wGLETKBW3PvgPWqT" := (sample_data, 100)]> ∅)
          = (Some r,
             <[py "spotify:" ++ py "4cOdK2wGLETKBW3PvgPWqT"
               := (r, 100 + CACHE_DURATION default_config)]>
               (<[py "spotify:" ++ py "4cOdK2wGLETKBW3PvgPWqT" := (sample_data, 100)]> ∅),
             [oembed_request default_config (py "4cOdK2wGLETKBW3PvgPWqT")]).
Proof.
  apply (expired_entry_not_served no_unicode_decimal default_config (fun _ => Timeout)
           100 (py "4cOdK2wGLETKBW3PvgPWqT") _ sample_data 100).
  - reflexivity.
  - lia.
Defined.

(** A call that went upstream and returned a record stored it for
    [CACHE_DURATION] from the instant of the call. *)
Lemma fresh_fetch_stored (unicode_decimal : N -> bool) (cfg : config)
    (upstream : http_request -> http_outcome) (now : Z) (id : str)
    (cache cache1 : cache_t) (r : track_data) :
  get_spotify_data unicode_decimal cfg upstream now id cache
  = (Some r, cache1, [oembed_request cfg id]) ->
  cache1 !! (py "spotify:" ++ id) = Some (r, now + CACHE_DURATION cfg).
Proof.
  intros H.
  destruct (get_spotify_data_cases unicode_decimal cfg upstream now id cache)
    as [(d & e & _ & _ & E) | [_ [E | (r' & st & data & _ & _ & _ & E)]]];
    rewrite E in H; try discriminate.
  injection H as <- <-. apply lookup_insert_eq.
Qed.

(** X12.  After a call that fetched a record from upstream at [t1], every
    call for the same identifier before [t1 + CACHE_DURATION] returns that
    record, leaves the cache as it is and sends nothing upstream, however
    the upstream endpoint would answer by then. *)
Theorem fetch_then_hit (unicode_decimal : N -> bool) (cfg : config)
    (upstream1 upstream2 : http_request -> http_outcome) (t1 t2 : Z) (id : str)
    (cache cache1 : cache_t) (r : track_data) :
  get_spotify_data unicode_decimal cfg upstream1 t1 id cache
  = (Some r, cache1, [oembed_request cfg id]) ->
  t2 < t1 + CACHE_DURATION cfg ->
  get_spotify_data unicode_decimal cfg upstream2 t2 id cache1 = (Some r, cache1, []).
Proof.
  intros H Hlt. apply fresh_fetch_stored in H.
  unfold get_spotify_data. rewrite (cache_get_live _ _ _ _ _ H Hlt). reflexivity.
Qed.

Lemma fetch_then_hit_witness :
  get_spotify_data no_unicode_decimal default_config (fun _ => Timeout)
    (new_year_2026 + 86399999999) (py "4cOdK2wGLETKBW3PvgPWqT")
    (<[py "spotify:4cOdK2wGLETKBW3PvgPWqT"
       := (sample_data, new_year_2026 + 86400000000)]> ∅)
  = (Some sample_data,
     <[py "spotify:4cOdK2wGLETKBW3PvgPWqT"
       := (sample_data, new_year_2026 + 86400000000)]> ∅,
     []).
Proof.
  apply (fetch_then_hit no_unicode_decimal default_config
           (fun _ => HttpResponse 200
                       (Some (oembed_body (JString (iframe (py "80") (py "380"))))))
           (fun _ => Timeout) new_year_2026 (new_year_2026 + 86399999999)
           (py "4cOdK2wGLETKBW3PvgPWqT") ∅).
  - vm_compute. reflexivity.
  - vm_compute. reflexivity.
Defined.

(** X13.  With a cache duration of zero or less nothing is ever served
    from the cache: after a call that fetched a record at [t1], every call
    for the same identifier at [t1] or later goes upstream again. *)
Theorem no_caching_without_duration (unicode_decimal : N -> bool) (cfg : config)
    (upstream1 upstream2 : http_request -> http_outcome) (t1 t2 : Z) (id : str)
    (cache cache1 : cache_t) (r : track_data) :
  CACHE_DURATION_SECONDS cfg <= 0 ->
  get_spotify_data unicode_decimal cfg upstream1 t1 id cache
  = (Some r, cache1, [oembed_request cfg id]) ->
  t1 <= t2 ->
  (get_spotify_data unicode_decimal cfg upstream2 t2 id cache1).2
  = [oembed_request cfg id].
Proof.
  intros Hd H Hle. apply fresh_fetch_stored in H.
  destruct (get_spotify_data_cases unicode_decimal cfg upstream2 t2 id cache1)
    as [(d & e & Hc & Hlt & _) | [_ [E | (r' & st & data & _ & _ & _ & E)]]].
  - rewrite H in Hc. injection Hc as <- <-. unfold CACHE_DURATION in Hlt. lia.
  - rewrite E. reflexivity.
  - rewrite E. reflexivity.
Qed.

Lemma no_caching_without_duration_witness :
  (get_spotify_data no_unicode_decimal
     {| CACHE_DURATION_SECONDS := 0; SERVICE_NAME := py "Spotify Embed Fix";
        YOUR_TWITTER_HANDLE := [] |}
     (fun _ => Timeout) new_year_2026 (py "4cOdK2wGLETKBW3PvgPWqT")
     (<[py "spotify:4cOdK2wGLETKBW3PvgPWqT" := (sample_data, new_year_2026 + 0)]> ∅)).2
  = [oembed_request
       {| CACHE_DURATION_SECONDS := 0; SERVICE_NAME := py "Spotify Embed Fix";
          YOUR_TWITTER_HANDLE := [] |}
       (py "4cOdK2wGLETKBW3PvgPWqT")].
Proof.
  apply (no_caching_without_duration no_unicode_decimal
           {| CACHE_DURATION_SECONDS := 0; SERVICE_NAME := py "Spotify Embed Fix";
              YOUR_TWITTER_HANDLE := [] |}
           (fun _ => HttpResponse 200
                       (Some (oembed_body (JString (iframe (py "80") (py "380"))))))
           (fun _ => Timeout) new_year_2026 new_year_2026
           (py "4cOdK2wGLETKBW3PvgPWqT") ∅ _ sample_data).
  - simpl. lia.
  - vm_compute. reflexivity.
  - lia.
Defined.

(** ** What the cache holds and what is served *)

Lemma group1_or_value (name : str) (f : N -> bool) (t default : str) :
  f dquote = false -> default <> [] -> forallb f default = true ->
  group1_or (Re.search (attr_pattern name f) t) default <> []
  /\ forallb f (group1_or (Re.search (attr_pattern name f) t) default) = true.
Proof.
  intros Hq Hne Hd.
  destruct (group1_or_attr name f Hq t default) as [H | [_ ->]].
  - eapply first_attr_value, H.
  - auto.
Qed.

Lemma build_result_record (unicode_decimal : N -> bool) (cfg : config) (id : str)
    (data : json) (r : track_data) :
  build_result unicode_decimal cfg id data = Some r ->
  record_for unicode_decimal cfg id r.
Proof.
  intros H. apply build_result_some in H as (items & html & embed & _ & _ & He & ->).
  unfold record_for. cbn [track_id original_url embed_url width height
                          service_name your_twitter_handle].
  apply (search_attr_first (py "src=") not_dquote not_dquote_dquote) in He
    as (v & [= <-] & Hv).
  apply first_attr_value in Hv as [Hv1 Hv2].
  destruct (group1_or_value (py "width=") (digit unicode_decimal) html (py "300"))
    as [Hw1 Hw2]; [reflexivity | discriminate | reflexivity |].
  destruct (group1_or_value (py "height=") (digit unicode_decimal) html (py "380"))
    as [Hh1 Hh2]; [reflexivity | discriminate | reflexivity |].
  unfold spotify_url. repeat split; assumption.
Qed.

Lemma cache_ok_delete (unicode_decimal : N -> bool) (cfg : config) (key : str)
    (cache : cache_t) :
  cache_ok unicode_decimal cfg cache -> cache_ok unicode_decimal cfg (delete key cache).
Proof.
  intros H id d e Hl. apply lookup_delete_Some in Hl as [_ Hl]. eapply H, Hl.
Qed.

Lemma cache_ok_insert (unicode_decimal : N -> bool) (cfg : config) (id : str)
    (r : track_data) (e : Z) (cache : cache_t) :
  record_for unicode_decimal cfg id r ->
  cache_ok unicode_decimal cfg cache ->
  cache_ok unicode_decimal cfg (<[py "spotify:" ++ id := (r, e)]> cache).
Proof.
  intros Hr H id' d e' Hl. apply lookup_insert_Some in Hl as [[Hk Hv] | [_ Hl]].
  - apply app_inv_head in Hk as <-. injection Hv as <- _. exact Hr.
  - eapply H, Hl.
Qed.

(** X14.  When every entry of the cache is a record for the identifier of
    its key (that identifier, its address on Spotify, an embed address and
    dimensions that are not empty, the configured names), a call of
    [get_spotify_data] leaves such a cache, and what it returns is a record
    for the identifier asked for. *)
Theorem fetch_keeps_cache_ok (unicode_decimal : N -> bool) (cfg : config)
    (upstream : http_request -> http_outcome) (now : Z) (id : str)
    (cache : cache_t) :
  cache_ok unicode_decimal cfg cache ->
  cache_ok unicode_decimal cfg
    (get_spotify_data unicode_decimal cfg upstream now id cache).1.2
  /\ forall r,
       (get_spotify_data unicode_decimal cfg upstream now id cache).1.1 = Some r ->
       record_for unicode_decimal cfg id r.
Proof.
  intros Hok.
  destruct (get_spotify_data_cases unicode_decimal cfg upstream now id cache)
    as [(d & e & Hc & _ & E) | [_ [E | (r & st & data & _ & _ & Hb & E)]]];
    rewrite E; cbn [fst snd].
  - split; [exact Hok|]. intros r [= <-]. eapply Hok, Hc.
  - split; [apply cache_ok_delete, Hok | discriminate].
  - apply build_result_record in Hb. split.
    + apply cache_ok_insert; assumption.
    + intros r' [= <-]. exact Hb.
Qed.

Lemma fetch_keeps_cache_ok_witness :
  cache_ok no_unicode_decimal default_config
    (get_spotify_data no_unicode_decimal default_config
       (fun _ => HttpResponse 200
                   (Some (oembed_body (JString (iframe (py "80") (py "380"))))))
       new_year_2026 (py "4cOdK2wGLETKBW3PvgPWqT") initial_cache).1.2
  /\ forall r,
       (get_spotify_data no_unicode_decimal default_config
          (fun _ => HttpResponse 200
                      (Some (oembed_body (JString (iframe (py "80") (py "380"))))))
          new_year_2026 (py "4cOdK2wGLETKBW3PvgPWqT") initial_cache).1.1 = Some r ->
       record_for no_unicode_decimal default_config (py "4cOdK2wGLETKBW3PvgPWqT") r.
Proof.
  apply (fetch_keeps_cache_ok no_unicode_decimal default_config).
  intros id d e H. unfold initial_cache in H. rewrite lookup_empty in H. discriminate H.
Defined.

Lemma handle_request_ok (unicode_decimal : N -> bool) (cfg : config)
    (upstream : http_request -> http_outcome) (now : Z) (req : request)
    (cache : cache_t) :
  cache_ok unicode_decimal cfg cache ->
  response_ok unicode_decimal cfg
    (handle_request unicode_decimal cfg upstream now req cache).1.1
  /\ cache_ok unicode_decimal cfg
       (handle_request unicode_decimal cfg upstream now req cache).1.2.
Proof.
  intros Hok. unfold handle_request.
  destruct (input_value_of req) as [|c s]; [split; [reflexivity | exact Hok]|].
  destruct (extract_spotify_track_id (c :: s)) as [id|] eqn:He;
    [|split; [exact I | exact Hok]].
  pose proof (extract_is_track_id _ _ He) as Hid.
  destruct id as [|i id]; [split; [exact I | exact Hok]|].
  destruct (is_bot _).
  - destruct (get_spotify_data_cases unicode_decimal cfg upstream now (i :: id) cache)
      as [(d & e & Hc & _ & E) | [_ [E | (r & st & data & _ & _ & Hb & E)]]];
      rewrite E; cbn [fst snd response_ok].
    + split; [|exact Hok]. exists (i :: id). split; [exact Hid|]. eapply Hok, Hc.
    + split; [|apply cache_ok_delete, Hok]. unfold spotify_url. eauto.
    + apply build_result_record in Hb. split; [eauto|].
      apply cache_ok_insert; assumption.
  - cbn [fst snd response_ok]. split; [|exact Hok]. unfold spotify_url. eauto.
Qed.

Lemma serve_ok (unicode_decimal : N -> bool) (cfg : config) (visits : list visit)
    (cache : cache_t) :
  cache_ok unicode_decimal cfg cache ->
  Forall (response_ok unicode_decimal cfg) (serve unicode_decimal cfg visits cache).1
  /\ cache_ok unicode_decimal cfg (serve unicode_decimal cfg visits cache).2.
Proof.
  revert cache. induction visits as [|v visits IH]; intros cache Hok.
  - split; [constructor | exact Hok].
  - cbn [serve].
    pose proof (handle_request_ok unicode_decimal cfg (visit_upstream v) (visit_time v)
                  (visit_request v) cache Hok) as [Hr Hc].
    destruct (handle_request unicode_decimal cfg (visit_upstream v) (visit_time v)
                (visit_request v) cache) as [[resp cache1] sent].
    cbn [fst snd] in Hr, Hc. specialize (IH cache1 Hc).
    destruct (serve unicode_decimal cfg visits cache1) as [resps cache2].
    cbn [fst snd] in *. destruct IH as [IH1 IH2].
    split; [constructor; assumption | exact IH2].
Qed.

(** X15.  Starting from the empty cache and whatever the visits, their
    instants and the upstream answers are: every embed page served carries
    a record for a string of 22 alphanumeric characters, with that string's
    address on Spotify and an embed address that is not empty; every
    redirect has code 307 and leads to the address of such a string; and
    every entry of the cache is a record for the identifier of its key. *)
Theorem served_responses_ok (unicode_decimal : N -> bool) (cfg : config)
    (visits : list visit) :
  Forall (response_ok unicode_decimal cfg)
    (serve unicode_decimal cfg visits initial_cache).1
  /\ cache_ok unicode_decimal cfg (serve unicode_decimal cfg visits initial_cache).2.
Proof.
  apply serve_ok. intros id d e H.
  unfold initial_cache in H. rewrite lookup_empty in H. discriminate H.
Qed.

(** X16.  A bot that asks for an identifier with a live entry gets the
    embed page with the stored record; the cache stays as it is and the
    upstream endpoint is not called. *)
Theorem bot_served_from_cache (unicode_decimal : N -> bool) (cfg : config)
    (upstream : http_request -> http_outcome) (now : Z) (req : request)
    (cache : cache_t) (id : str) (d : track_data) (e : Z) :
  extract_spotify_track_id (input_value_of req) = Some id ->
  is_bot (default [] (user_agent_header req)) = true ->
  cache !! (py "spotify:" ++ id) = Some (d, e) -> now < e ->
  handle_request unicode_decimal cfg upstream now req cache
  = (EmbedPage d, cache, []).
Proof.
  intros He Hb Hc Hlt. unfold handle_request.
  destruct (input_value_of req) as [|c s]; [discriminate He|].
  rewrite He, Hb.
  destruct id as [|i id].
  { apply extract_is_track_id in He as [Hl _]. discriminate Hl. }
  unfold get_spotify_data. rewrite (cache_get_live _ _ _ _ _ Hc Hlt). reflexivity.
Qed.

Lemma bot_served_from_cache_witness :
  handle_request no_unicode_decimal default_config (fun _ => Timeout) 30
    {| path := py "ignored";
       args := [(py "url", py "https://open.spotify.com/track/4cOdK2wGLETKBW3PvgPWqT")];
       user_agent_header := Some (py "TelegramBot (like TwitterBot)") |}
    (<[py "spotify:" ++ py "4cOdK2wGLETKBW3PvgPWqT" := (sample_data, 70)]> ∅)
  = (EmbedPage sample_data,
     <[py "spotify:" ++ py "4cOdK2wGLETKBW3PvgPWqT" := (sample_data, 70)]> ∅, []).
Proof.
  apply (bot_served_from_cache no_unicode_decimal default_config (fun _ => Timeout) 30
           _ _ (py "4cOdK2wGLETKBW3PvgPWqT") sample_data 70).
  - vm_compute. reflexivity.
  - vm_compute. reflexivity.
  - reflexivity.
  - lia.
Defined.

(** X17.  In a record that [get_spotify_data] builds, [embed_url] is the
    value of the leftmost [src="..."] of the [html] of the body, [title] and
    [thumbnail_url] are the values the body has under these keys, and
    [provider_name] is the value of the body, or [Spotify] when the body
    has none. *)
Theorem fields_of_result (unicode_decimal : N -> bool) (cfg : config) (id : str)
    (data : json) (r : track_data) :
  build_result unicode_decimal cfg id data = Some r ->
  exists items html,
    data = JObject items
    /\ dict_lookup (py "html") items = Some (JString html)
    /\ first_attr (py "src=") not_dquote html (embed_url r)
    /\ dict_lookup (py "title") items = Some (title r)
    /\ dict_lookup (py "thumbnail_url") items = Some (thumbnail_url r)
    /\ (dict_lookup (py "provider_name") items = Some (provider_name r)
        \/ dict_lookup (py "provider_name") items = None
           /\ provider_name r = JString (py "Spotify")).
Proof.
  intros H.
  assert (Hall : all_in required_keys data = Some true).
  { unfold build_result in H. destruct (all_in required_keys data) as [[|]|]; done. }
  apply build_result_some in H as (items & html & embed & -> & Hh & He & ->).
  rewrite all_in_object in Hall.
  exists items, html. cbn [embed_url title thumbnail_url provider_name].
  split; [reflexivity|]. split; [exact Hh|]. split.
  { apply (search_attr_first (py "src=") not_dquote not_dquote_dquote) in He
      as (v & [= <-] & Hv). exact Hv. }
  unfold dict_get.
  pose proof (Hall (py "title") ltac:(left; reflexivity)) as H1.
  pose proof (Hall (py "thumbnail_url") ltac:(right; left; reflexivity)) as H2.
  destruct (dict_lookup (py "title") items); [|done].
  destruct (dict_lookup (py "thumbnail_url") items); [|done].
  destruct (dict_lookup (py "provider_name") items); auto.
Qed.

Lemma fields_of_result_witness :
  exists items html,
    oembed_body (JString (iframe (py "80") (py "380"))) = JObject items
    /\ dict_lookup (py "html") items = Some (JString html)
    /\ first_attr (py "src=") not_dquote html (embed_url sample_data)
    /\ dict_lookup (py "title") items = Some (title sample_data)
    /\ dict_lookup (py "thumbnail_url") items = Some (thumbnail_url sample_data)
    /\ (dict_lookup (py "provider_name") items = Some (provider_name sample_data)
        \/ dict_lookup (py "provider_name") items = None
           /\ provider_name sample_data = JString (py "Spotify")).
Proof.
  apply (fields_of_result no_unicode_decimal default_config
           (py "4cOdK2wGLETKBW3PvgPWqT")).
  vm_compute. reflexivity.
Defined.

Lemma get_spotify_data_size (unicode_decimal : N -> bool) (cfg : config)
    (upstream : http_request -> http_outcome) (now : Z) (id : str)
    (cache : cache_t) :
  (size (get_spotify_data unicode_decimal cfg upstream now id cache).1.2
   <= S (size cache))%nat.
Proof.
  destruct (get_spotify_data_cases unicode_decimal cfg upstream now id cache)
    as [(d & e & _ & _ & E) | [_ [E | (r & st & data & _ & _ & _ & E)]]];
    rewrite E; cbn [fst snd].
  - lia.
  - rewrite map_size_delete. destruct (cache !! _); simpl; lia.
  - rewrite map_size_insert. destruct (cache !! _); simpl; lia.
Qed.

Lemma handle_request_size (unicode_decimal : N -> bool) (cfg : config)
    (upstream : http_request -> http_outcome) (now : Z) (req : request)
    (cache : cache_t) :
  (size (handle_request unicode_decimal cfg upstream now req cache).1.2
   <= S (size cache))%nat.
Proof.
  unfold handle_request.
  destruct (input_value_of req); [cbn [fst snd]; lia|].
  destruct (extract_spotify_track_id _) as [[|i id]|]; try (cbn [fst snd]; lia).
  destruct (is_bot _); [|cbn [fst snd]; lia].
  pose proof (get_spotify_data_size unicode_decimal cfg upstream now (i :: id) cache) as H.
  destruct (get_spotify_data _ _ _ _ _ _) as [[[d|] c'] sent]; exact H.
Qed.

Lemma serve_size (unicode_decimal : N -> bool) (cfg : config) (visits : list visit)
    (cache : cache_t) :
  (size (serve unicode_decimal cfg visits cache).2 <= size cache + length visits)%nat.
Proof.
  revert cache. induction visits as [|v visits IH]; intros cache.
  - simpl. lia.
  - cbn [serve length].
    pose proof (handle_request_size unicode_decimal cfg (visit_upstream v)
                  (visit_time v) (visit_request v) cache) as H.
    destruct (handle_request _ _ _ _ _ _) as [[resp cache1] sent].
    cbn [fst snd] in H. specialize (IH cache1).
    destruct (serve unicode_decimal cfg visits cache1) as [resps cache2].
    cbn [snd] in *. lia.
Qed.

(** X18.  The cache grows by one entry per visit at most: after any run of
    visits from the empty cache it holds no more entries than there were
    visits. *)
Theorem cache_size_bound (unicode_decimal : N -> bool) (cfg : config)
    (visits : list visit) :
  (size (serve unicode_decimal cfg visits initial_cache).2 <= length visits)%nat.
Proof.
  pose proof (serve_size unicode_decimal cfg visits initial_cache) as H.
  unfold initial_cache in H at 2. rewrite map_size_empty in H. exact H.
Qed.
